(** * uvdepsync: a shallow embedding of [src/uvdepsync/core.py]

    The development follows the source function by function: text
    helpers ([normalize_dist_name], [parse_requirement_name]), the import
    scanner, the distribution resolver, the manifest reader and the sync
    planner.  Python [str] values are Rocq strings read as sequences of
    code points below 256 (one code point per [ascii]), so every statement
    about names and texts speaks about this range; [set] values are
    [gset string]; [dict] values are [gmap]; exceptions are explicit
    result types: a call that raises returns [None]. *)

From Stdlib Require Import Ascii String NArith.
From stdpp Require Import gmap strings list sorting fin_sets.

Set Warnings "-register-all".

(** ** Text *)

Module Text.

Definition code (c : ascii) : N := N_of_ascii c.

Definition in_range (lo hi : N) (c : ascii) : bool :=
  ((lo <=? code c) && (code c <=? hi))%N.

(** [str.lower] on one code point below 256: A-Z and the Latin-1 capitals
    U+00C0..U+00DE (without the multiplication sign U+00D7) move up by 32.
    This is [str.lower] for texts whose code points are all below U+0100,
    where it works character by character; beyond that range [str.lower]
    can change the length of a text and depends on the neighbours of a
    character (the final sigma), and is not modelled. *)
Definition is_upper (c : ascii) : bool :=
  in_range 65 90 c || (in_range 192 222 c && negb (code c =? 215)%N).

Definition lower_char (c : ascii) : ascii :=
  if is_upper c then ascii_of_N (code c + 32) else c.

Fixpoint lower (s : string) : string :=
  match s with
  | EmptyString => EmptyString
  | String c rest => String (lower_char c) (lower rest)
  end.

(** The character class [[-_.]]. *)
Definition is_sep (c : ascii) : bool :=
  (code c =? 45)%N || (code c =? 95)%N || (code c =? 46)%N.

(** The character class [[A-Za-z0-9]]. *)
Definition is_alnum (c : ascii) : bool :=
  in_range 65 90 c || in_range 97 122 c || in_range 48 57 c.

(** The character class [[A-Za-z0-9._-]]. *)
Definition is_name_char (c : ascii) : bool := is_alnum c || is_sep c.

(** [\s] of a [str] pattern and the characters removed by [str.strip()]:
    U+0009..U+000D, U+001C..U+0020, U+0085 and U+00A0. *)
Definition is_space (c : ascii) : bool :=
  in_range 9 13 c || in_range 28 32 c || (code c =? 133)%N || (code c =? 160)%N.

(** [re.sub(r"[-_.]+", "-", s)]: every maximal run of separators becomes
    one hyphen.  [in_run] records that the previous character belonged to
    a run that has already been replaced. *)
Fixpoint sub_runs (in_run : bool) (s : string) : string :=
  match s with
  | EmptyString => EmptyString
  | String c rest =>
      if is_sep c
      then (if in_run then sub_runs true rest
            else String "-" (sub_runs true rest))
      else String c (sub_runs false rest)
  end.

Fixpoint lstrip (s : string) : string :=
  match s with
  | EmptyString => EmptyString
  | String c rest => if is_space c then lstrip rest else s
  end.

Fixpoint rstrip (s : string) : string :=
  match s with
  | EmptyString => EmptyString
  | String c rest =>
      match rstrip rest with
      | EmptyString => if is_space c then EmptyString else String c EmptyString
      | rest' => String c rest'
      end
  end.

Definition strip (s : string) : string := rstrip (lstrip s).

Fixpoint take_while (p : ascii -> bool) (s : string) : string :=
  match s with
  | EmptyString => EmptyString
  | String c rest => if p c then String c (take_while p rest) else EmptyString
  end.

(** [s.split(".", 1)[0]]: the text before the first dot. *)
Fixpoint first_segment (s : string) : string :=
  match s with
  | EmptyString => EmptyString
  | String c rest => if (code c =? 46)%N then EmptyString else String c (first_segment rest)
  end.

(** Truth value of a [str]: the empty string is false. *)
Definition truthy (s : string) : bool :=
  match s with EmptyString => false | _ => true end.

(** [s.endswith(suffix)]. *)
Fixpoint endswith (s suffix : string) : bool :=
  String.eqb s suffix ||
  match s with
  | EmptyString => false
  | String _ rest => endswith rest suffix
  end.

(** The characters of a [str], each as a [str] of length one (what
    iterating over a [str] yields). *)
Fixpoint chars (s : string) : list string :=
  match s with
  | EmptyString => []
  | String c rest => String c EmptyString :: chars rest
  end.

(** [s[:k]]. *)
Fixpoint take (k : nat) (s : string) : string :=
  match k, s with
  | S k', String c rest => String c (take k' rest)
  | _, _ => EmptyString
  end.

(** Order of [str] values: lexicographic on code points. *)
Definition le : relation string := fun a b => String.leb a b = true.
Definition lt : relation string := fun a b => String.compare a b = Lt.

#[global] Instance le_dec a b : Decision (le a b).
Proof. unfold le. apply _. Defined.

#[global] Instance lt_dec a b : Decision (lt a b).
Proof. unfold lt. apply _. Defined.

End Text.

(** [normalize_dist_name] (core.py, lines 55-56). *)
Definition normalize_dist_name (name : string) : string :=
  Text.lower (Text.sub_runs false name).

(** [parse_requirement_name] (core.py, lines 59-63).  The pattern
    [REQUIREMENT_NAME_PATTERN] is anchored at the start, skips white space
    (a starred [\s]) and captures one character of [[A-Za-z0-9]] followed
    by a starred [[A-Za-z0-9._-]].  The classes [\s] and [[A-Za-z0-9]] are
    disjoint, so the greedy match skips all leading white space and then
    takes the longest run of name characters; without a match the source
    returns [requirement.strip()]. *)
Definition parse_requirement_name (requirement : string) : string :=
  match Text.lstrip requirement with
  | String c rest =>
      if Text.is_alnum c
      then String c (Text.take_while Text.is_name_char rest)
      else Text.strip requirement
  | EmptyString => Text.strip requirement
  end.

(** [sorted(X)] for a [set] of [str]. *)
Definition sorted (X : gset string) : list string :=
  merge_sort Text.le (elements X).

(** ** Sync planner *)

(** [d.setdefault(k, v)]. *)
Definition setdefault (k v : string) (m : gmap string string) : gmap string string :=
  match m !! k with
  | Some _ => m
  | None => <[k:=v]> m
  end.

(** [compute_synced_dependencies] (core.py, lines 230-242). *)
Definition compute_synced_dependencies
    (current_dependencies : list string) (inferred_dependencies : gset string)
    : list string :=
  let current_map :=
    foldl (fun m dep =>
             let dep_name := normalize_dist_name (parse_requirement_name dep) in
             setdefault dep_name dep m)
          (∅ : gmap string string) current_dependencies in
  (fun dep_name => default dep_name (current_map !! dep_name))
    <$> sorted inferred_dependencies.

(** ** Source scanner *)

Module Ast.

(** The part of Python's syntax tree the scanner looks at.  [Import] and
    [ImportFrom] carry the fields the source reads; every other node kind
    (module, function, class, conditional, ...) is [Other] with its child
    nodes.  The [alias] children of an import node are leaves of neither
    import kind, so they are kept as a field. *)
Record alias := Alias { name : string; asname : option string }.

Inductive node :=
| Import (names : list alias)
| ImportFrom (module : option string) (names : list alias) (level : nat)
| Other (children : list node).

(** [ast.walk]: all nodes of the tree, the root included.  The library
    documents no particular order; the scanner only adds to a set. *)
Fixpoint walk (n : node) : list node :=
  n :: match n with
       | Other children => flat_map walk children
       | _ => []
       end.

(** [ast.parse] returns a tree, raises [SyntaxError], or raises another
    exception: [ValueError] for a source with a NUL character (CPython
    3.11), [RecursionError] or [MemoryError] for a source nested too
    deeply. *)
Inductive parse_result :=
| Parsed (tree : node)
| SyntaxError
| Raises.

End Ast.

Module Fs.

(** A directory tree.  A file carries the text that
    [read_text(encoding="utf-8", errors="ignore")] returns for it, or
    [None] when reading it raises (a file that cannot be opened). *)
Inductive entry :=
| File (name : string) (text : option string)
| Dir (name : string) (entries : list entry).

(** A path found by the walk, with what [read_text] gives for the file it
    names. *)
Record path := Path { parts : list string; read_text : option string }.

End Fs.

(** The files of one directory whose name ends in [.py], as [os.walk]
    lists them for [root]. *)
Definition python_files_here (root : list string) (entries : list Fs.entry)
    : list Fs.path :=
  flat_map (fun e =>
              match e with
              | Fs.File file_name text =>
                  if Text.endswith file_name ".py"
                  then [Fs.Path (root ++ [file_name]) text]
                  else []
              | Fs.Dir _ _ => []
              end) entries.

(** The top-down [os.walk] of [iter_python_files]: the files of the
    directory first, then each sub-directory that survives the pruning
    [dirs[:] = [d for d in dirs if d not in excluded_dirs]]. *)
Fixpoint walk_python_files (excluded_dirs : gset string) (root : list string)
    (top : Fs.entry) : list Fs.path :=
  match top with
  | Fs.File _ _ => []
  | Fs.Dir _ entries =>
      python_files_here root entries ++
      flat_map (fun e =>
                  match e with
                  | Fs.Dir directory _ =>
                      if decide (directory ∈ excluded_dirs) then []
                      else walk_python_files excluded_dirs (root ++ [directory]) e
                  | Fs.File _ _ => []
                  end) entries
  end.

(** [iter_python_files] (core.py, lines 92-99).  The name of
    [project_path] itself is not compared with the exclusion set. *)
Definition iter_python_files (project_path : Fs.entry) (excluded_dirs : gset string)
    : list Fs.path :=
  walk_python_files excluded_dirs [] project_path.

(** The body of the loop over [ast.walk(tree)] (core.py, lines 110-116). *)
Definition visit_node (imports : gset string) (node : Ast.node) : gset string :=
  match node with
  | Ast.Import names =>
      foldl (fun imports alias =>
               imports ∪ {[ Text.lower (Text.first_segment (Ast.name alias)) ]})
            imports names
  | Ast.ImportFrom module _ level =>
      match module with
      | Some module =>
          if negb (level =? 0)%nat || negb (Text.truthy module) then imports
          else imports ∪ {[ Text.lower (Text.first_segment module) ]}
      | None => imports
      end
  | Ast.Other _ => imports
  end.

Section Scanner.

(** The parser of the scanned language is a collaborator. *)
Variable ast_parse : string -> Ast.parse_result.

(** [extract_imports_from_source] (core.py, lines 102-118).  Only
    [SyntaxError] is caught; the result is [None] when another exception
    leaves the function. *)
Definition extract_imports_from_source (source : string) : option (gset string) :=
  match ast_parse source with
  | Ast.SyntaxError => Some ∅
  | Ast.Parsed tree => Some (foldl visit_node ∅ (Ast.walk tree))
  | Ast.Raises => None
  end.

(** Lines 126-127 for one file: read it and extract its imports; [None]
    when either step raises. *)
Definition scan_file (file_path : Fs.path) : option (gset string) :=
  match Fs.read_text file_path with
  | Some source => extract_imports_from_source source
  | None => None
  end.

(** [collect_imports] (core.py, lines 121-129).  Nothing in the loop
    catches an exception: the result is [None] as soon as one file
    raises. *)
Definition collect_imports (project_path : Fs.entry) (excluded_dirs : gset string)
    : option (gset string * nat) :=
  let python_files := iter_python_files project_path excluded_dirs in
  match foldl (fun imports file_path =>
                 match imports, scan_file file_path with
                 | Some imports, Some found => Some (imports ∪ found)
                 | _, _ => None
                 end)
              (Some ∅) python_files with
  | Some imports => Some (imports, length python_files)
  | None => None
  end.

End Scanner.

(** ** Distribution resolver *)

(** Line 137: [sorted({normalize_dist_name(dep) for dep in distributions
    if dep})]. *)
Definition normalized_candidates (distributions : list string) : list string :=
  sorted (list_to_set
            (normalize_dist_name <$>
               filter (fun dep => Text.truthy dep) distributions)).

(** [build_distribution_map] (core.py, lines 132-141).  [raw_map] is the
    [dict] returned by [importlib.metadata.packages_distributions()], given
    by its items in iteration order; a later item whose lowercased module
    name was already stored replaces the earlier entry. *)
Definition build_distribution_map (raw_map : list (string * list string))
    : gmap string (list string) :=
  foldl (fun mapping item =>
           let normalized := normalized_candidates (snd item) in
           match normalized with
           | [] => mapping
           | _ :: _ => <[Text.lower (fst item) := normalized]> mapping
           end)
        ∅ raw_map.

(** The body of the loop of [infer_dependencies] (core.py, lines 155-167). *)
Definition infer_step
    (distribution_map : gmap string (list string))
    (local_modules stdlib_modules : gset string)
    (explicit_map : gmap string string)
    (module : string) (inferred : gset string) : gset string :=
  if decide (module ∈ stdlib_modules ∨ module ∈ local_modules) then inferred
  else
    let from_index :=
      match distribution_map !! module with
      | Some (first :: _) => inferred ∪ {[ normalize_dist_name first ]}
      | _ => inferred ∪ {[ normalize_dist_name module ]}
      end in
    match explicit_map !! module with
    | Some mapped_dep =>
        if Text.truthy mapped_dep
        then inferred ∪ {[ normalize_dist_name mapped_dep ]}
        else from_index
    | None => from_index
    end.

(** [infer_dependencies] (core.py, lines 144-169).  [explicit_map] may be
    [None]; [explicit_map or {}] then stands for the empty map. *)
Definition infer_dependencies
    (imports : gset string)
    (distribution_map : gmap string (list string))
    (local_modules stdlib_modules : gset string)
    (explicit_map : option (gmap string string)) : gset string :=
  let explicit_map := default ∅ explicit_map in
  set_fold (infer_step distribution_map local_modules stdlib_modules explicit_map)
           ∅ imports.

(** What one module adds to the inferred set: the loop body run on the
    empty set. *)
Definition contribution
    (distribution_map : gmap string (list string))
    (local_modules stdlib_modules : gset string)
    (explicit_map : option (gmap string string))
    (module : string) : gset string :=
  infer_step distribution_map local_modules stdlib_modules
             (default ∅ explicit_map) module ∅.

(** ** Manifest reader *)

Module Toml.

(** A parsed TOML value as the source observes it: a string, a list, a
    table, or any other scalar (integer, float, boolean, date), of which
    only the truth value matters. *)
Inductive value :=
| Str (s : string)
| Scalar (truth : bool)
| Array (items : list value)
| Table (fields : list (string * value)).

(** [table.get(key)]. *)
Definition get (fields : list (string * value)) (key : string) : option value :=
  snd <$> List.find (fun kv => String.eqb (fst kv) key) fields.

Definition truthy (v : value) : bool :=
  match v with
  | Str s => Text.truthy s
  | Scalar truth => truth
  | Array items => match items with [] => false | _ => true end
  | Table fields => match fields with [] => false | _ => true end
  end.

(** [[dep for dep in items if isinstance(dep, str)]]. *)
Definition strings (items : list value) : list string :=
  omap (fun dep => match dep with Str s => Some s | _ => None end) items.

(** What iterating over a value yields; [None] when it is not iterable. *)
Definition iterate (v : value) : option (list value) :=
  match v with
  | Array items => Some items
  | Str s => Some (Str <$> Text.chars s)
  | Table fields => Some ((fun kv => Str (fst kv)) <$> fields)
  | Scalar _ => None
  end.

End Toml.

Section ManifestReader.

(** [tomllib.loads]; [None] when it raises. *)
Variable tomllib_loads : string -> option (list (string * Toml.value)).

(** [load_declared_dependencies] (core.py, lines 172-181).  The manifest
    is [None] when the file does not exist; the result is [None] when an
    exception is raised. *)
Definition load_declared_dependencies (pyproject : option string)
    : option (gset string * list string) :=
  text ← pyproject;
  data ← tomllib_loads text;
  found ← match Toml.get data "project" with
          | None => Some (Toml.Array [])
          | Some (Toml.Table project) =>
              Some (default (Toml.Array []) (Toml.get project "dependencies"))
          | Some _ => None
          end;
  let deps := if Toml.truthy found then found else Toml.Array [] in
  items ← Toml.iterate deps;
  let raw_dependencies := Toml.strings items in
  let normalized_dependencies : gset string :=
    list_to_set ((fun dep => normalize_dist_name (parse_requirement_name dep))
                   <$> raw_dependencies) in
  Some (normalized_dependencies, raw_dependencies).

End ManifestReader.

(** ** Diff engine (core.py, lines 214-215) *)

Definition missing_dependencies (inferred declared : gset string) : gset string :=
  inferred ∖ declared.

Definition unused_dependencies (inferred declared : gset string) : gset string :=
  declared ∖ inferred.

(** ** Sync: reading and rewriting the manifest *)

Record SyncResult := mkSyncResult {
  changed : bool;
  wrote : bool;
  before : list string;
  after : list string
}.

Module Utf8.

(** [text.encode("utf-8")] for code points below 256: one byte for a code
    point below U+0080, the two bytes [110000xx 10xxxxxx] otherwise. *)
Fixpoint encode (text : string) : string :=
  match text with
  | EmptyString => EmptyString
  | String c rest =>
      let n := Text.code c in
      if (n <? 128)%N then String c (encode rest)
      else String (ascii_of_N (192 + n / 64))
             (String (ascii_of_N (128 + n mod 64)) (encode rest))
  end.

(** [bytes.decode("utf-8")] on the encodings of such texts and on their
    prefixes: [None] stands for [UnicodeDecodeError], raised here for a
    lead byte without its continuation byte.  Bytes that start a code
    point from U+0100 on are outside the texts of this development and
    are refused as well. *)
Fixpoint decode (bytes : string) : option string :=
  match bytes with
  | EmptyString => Some EmptyString
  | String b rest =>
      let n := Text.code b in
      if (n <? 128)%N then String b <$> decode rest
      else if (n =? 194)%N || (n =? 195)%N then
        match rest with
        | String b2 rest' =>
            let m := Text.code b2 in
            if (128 <=? m)%N && (m <? 192)%N
            then String (ascii_of_N ((n - 192) * 64 + (m - 128))) <$> decode rest'
            else None
        | EmptyString => None
        end
      else None
  end.

End Utf8.

(** How a call of [Path.write_text] ends.  The call opens the file for
    writing, which truncates it, and then writes the encoded text; it may
    complete, fail before the file is opened, or fail after some bytes of
    the encoded text have reached the file. *)
Inductive write_fault :=
| NoFault
| OpenFails
| WriteFailsAfter (written : nat).

(** [pyproject_path.write_text(data, encoding="utf-8")]: the file
    afterwards, and whether the call returned.  A file is given by what
    [read_text(encoding="utf-8")] returns for it, [None] when that raises:
    after a failure that left [written] bytes, the file reads as the
    decoded bytes, and reading raises when the last character is cut. *)
Definition write_text (data : string) (fault : write_fault) (file : option string)
    : option string * bool :=
  match fault with
  | NoFault => (Some data, true)
  | OpenFails => (file, false)
  | WriteFailsAfter written =>
      (Utf8.decode (Text.take written (Utf8.encode data)), false)
  end.

Section Sync.

(** The structured document editor ([tomlkit]) is a collaborator. *)
Context {document : Type}.
Variable tomlkit_parse : string -> option document.
Variable tomlkit_dumps : document -> string.
(** ["project" in document]. *)
Variable has_project : document -> bool.
(** [document["project"] = tomlkit.table()]. *)
Variable add_project : document -> document.
(** The items of [project_table.get("dependencies", [])]; [None] when
    reading them raises. *)
Variable project_dependencies : document -> option (list Toml.value).
(** Lines 268-272: the project table gets a multi-line array of the given
    strings as its dependencies. *)
Variable set_project_dependencies : document -> list string -> document.

(** [sync_project_dependencies] (core.py, lines 245-281) as a function of
    the manifest file: the file afterwards and the result ([None] when an
    exception leaves the function).  The file [pyproject] is given by what
    [read_text] returns for it, [None] when reading raises. *)
Definition sync_project_dependencies
    (pyproject : option string) (inferred_dependencies : gset string)
    (write : bool) (fault : write_fault) : option string * option SyncResult :=
  match pyproject with
  | None => (pyproject, None)
  | Some source_text =>
      match tomlkit_parse source_text with
      | None => (pyproject, None)
      | Some document =>
          let document :=
            if has_project document then document else add_project document in
          match project_dependencies document with
          | None => (pyproject, None)
          | Some items =>
              let current_dependencies := Toml.strings items in
              let synced_dependencies :=
                compute_synced_dependencies current_dependencies inferred_dependencies in
              let changed := bool_decide (current_dependencies ≠ synced_dependencies) in
              if changed && write then
                let document := set_project_dependencies document synced_dependencies in
                match write_text (tomlkit_dumps document) fault pyproject with
                | (file, true) =>
                    (file, Some (mkSyncResult changed true
                                   current_dependencies synced_dependencies))
                | (file, false) => (file, None)
                end
              else
                (pyproject, Some (mkSyncResult changed false
                                    current_dependencies synced_dependencies))
          end
      end
  end.

End Sync.

(** A line-based stand-in for the document editor, used to run the sync on
    concrete manifests: the document is the list of dependency strings, one
    per line of the file. *)
Module LineEditor.

Fixpoint parse_lines (s : string) : list string :=
  match s with
  | EmptyString => []
  | String c rest =>
      if (Text.code c =? 10)%N then EmptyString :: parse_lines rest
      else match parse_lines rest with
           | [] => [String c EmptyString]
           | line :: more => String c line :: more
           end
  end.

Definition parse (s : string) : option (list string) := Some (parse_lines s).

Definition newline : string := String (ascii_of_N 10) EmptyString.

Definition dumps (doc : list string) : string :=
  String.concat EmptyString ((fun line => (line +:+ newline)) <$> doc).

Definition sync := sync_project_dependencies (document := list string)
  parse dumps (fun _ => true) (fun doc => doc)
  (fun doc => Some (Toml.Str <$> doc)) (fun _ deps => deps).

End LineEditor.

(** A stand-in for the parser, used to run the scanner on concrete
    projects: each line [import NAME] is a plain import of [NAME], each line
    [from NAME] a from-import of level 0, each line [from .NAME] a relative
    import of level 1, an empty line is skipped, and any other line is a
    syntax error of the whole text. *)
Module LineParser.

Definition after (prefix line : string) : option string :=
  if String.prefix prefix line
  then Some (String.substring (String.length prefix)
                              (String.length line - String.length prefix) line)
  else None.

Definition statement (line : string) : option (list Ast.node) :=
  match line with
  | EmptyString => Some []
  | _ =>
      match after "import " line, after "from ." line, after "from " line with
      | Some name, _, _ => Some [Ast.Import [Ast.Alias name None]]
      | None, Some name, _ => Some [Ast.ImportFrom (Some name) [] 1]
      | None, None, Some name => Some [Ast.ImportFrom (Some name) [] 0]
      | None, None, None => None
      end
  end.

Fixpoint statements (lines : list string) : option (list Ast.node) :=
  match lines with
  | [] => Some []
  | line :: more =>
      match statement line, statements more with
      | Some nodes, Some rest => Some (nodes ++ rest)
      | _, _ => None
      end
  end.

Definition parse (source : string) : Ast.parse_result :=
  match statements (LineEditor.parse_lines source) with
  | Some body => Ast.Parsed (Ast.Other body)
  | None => Ast.SyntaxError
  end.

(** Joins the lines of a concrete source text. *)
Definition text (lines : list string) : string := LineEditor.dumps lines.

Fixpoint has_nul (source : string) : bool :=
  match source with
  | EmptyString => false
  | String c rest => (Text.code c =? 0)%N || has_nul rest
  end.

(** The same parser with the behaviour of CPython 3.11 on a source that
    holds a NUL character: [ast.parse] raises [ValueError]. *)
Definition parse311 (source : string) : Ast.parse_result :=
  if has_nul source then Ast.Raises else parse source.

End LineParser.

(** A stand-in for the document editor on manifests of the shape that
    [tests/test_core.py] writes: any lines, then a [dependencies] array
    with one quoted item per line, then any lines.  The lines around the
    array are kept as they are. *)
Module ManifestEditor.

Definition quote : string := String (ascii_of_N 34) EmptyString.

Record document := Doc {
  before : list string;
  items : list string;
  after : list string
}.

Definition opening : string := "dependencies = [".
Definition closing : string := "]".

Fixpoint split_at (key : string) (lines : list string)
    : option (list string * list string) :=
  match lines with
  | [] => None
  | line :: more =>
      if String.eqb line key then Some ([], more)
      else match split_at key more with
           | Some (head, tail) => Some (line :: head, tail)
           | None => None
           end
  end.

Definition unquote (line : string) : option string :=
  match Text.lstrip line with
  | String c rest =>
      if (Text.code c =? 34)%N
      then Some (Text.take_while (fun d => negb (Text.code d =? 34)%N) rest)
      else None
  | EmptyString => None
  end.

Definition parse (text : string) : option document :=
  match split_at opening (LineEditor.parse_lines text) with
  | None => None
  | Some (before, rest) =>
      match split_at closing rest with
      | None => None
      | Some (item_lines, after) =>
          match mapM unquote item_lines with
          | Some items => Some (Doc before items after)
          | None => None
          end
      end
  end.

Definition item_line (dep : string) : string :=
  "    " +:+ quote +:+ dep +:+ quote +:+ ",".

Definition dumps (doc : document) : string :=
  LineEditor.dumps
    (before doc ++ [opening] ++ (item_line <$> items doc) ++ [closing] ++ after doc).


Definition sync := sync_project_dependencies (document := document)
  parse dumps
  (fun doc => bool_decide ("[project]" ∈ before doc))
  (fun doc => Doc (before doc ++ ["[project]"]) (items doc) (after doc))
  (fun doc => Some (Toml.Str <$> items doc))
  (fun doc deps => Doc (before doc) deps (after doc)).

End ManifestEditor.

(** ** Local module detector *)

Module Pathlib.

(** [name.rfind(".")]: the index of the last dot. *)
Fixpoint rfind_dot (name : string) : option nat :=
  match name with
  | EmptyString => None
  | String c rest =>
      match rfind_dot rest with
      | Some i => Some (S i)
      | None => if (Text.code c =? 46)%N then Some 0%nat else None
      end
  end.

(** [s[i:]]. *)
Fixpoint drop (i : nat) (s : string) : string :=
  match i, s with
  | S i', String _ rest => drop i' rest
  | _, _ => s
  end.

(** The index at which [PurePath.suffix] and [PurePath.stem] cut a file
    name (CPython 3.11 to 3.13): the last dot, unless it is the first or
    the last character of the name. *)
Definition suffix_index (name : string) : option nat :=
  match rfind_dot name with
  | Some i =>
      if (0 <? i)%nat && (i <? String.length name - 1)%nat then Some i else None
  | None => None
  end.

Definition suffix (name : string) : string :=
  match suffix_index name with
  | Some i => drop i name
  | None => EmptyString
  end.

Definition stem (name : string) : string :=
  match suffix_index name with
  | Some i => Text.take i name
  | None => name
  end.

End Pathlib.

Definition entry_name (e : Fs.entry) : string :=
  match e with
  | Fs.File name _ => name
  | Fs.Dir name _ => name
  end.

(** [(directory / name).exists()]. *)
Definition has_entry (name : string) (entries : list Fs.entry) : bool :=
  existsb (fun e => String.eqb (entry_name e) name) entries.

(** The body of the two loops of [discover_local_modules] (core.py, lines
    75-79 and 83-87): one pass over the children of a directory. *)
Definition add_local_modules (local_modules : gset string) (children : list Fs.entry)
    : gset string :=
  foldl (fun local_modules child =>
           match child with
           | Fs.File name _ =>
               if String.eqb (Pathlib.suffix name) ".py"
               then local_modules ∪ {[ Text.lower (Pathlib.stem name) ]}
               else local_modules
           | Fs.Dir name entries =>
               if has_entry "__init__.py" entries
               then local_modules ∪ {[ Text.lower name ]}
               else local_modules
           end)
        local_modules children.

(** [discover_local_modules] (core.py, lines 72-89).  [iterdir] raises
    when [project_path] is not a directory: the result is [None] then.
    [project_path / "src"] is the entry of that name, if any. *)
Definition discover_local_modules (project_path : Fs.entry) : option (gset string) :=
  match project_path with
  | Fs.File _ _ => None
  | Fs.Dir _ children =>
      let local_modules := add_local_modules ∅ children in
      match List.find (fun e => String.eqb (entry_name e) "src") children with
      | Some (Fs.Dir _ src_children) => Some (add_local_modules local_modules src_children)
      | _ => Some local_modules
      end
  end.

(** ** Standard-library names and the analysis *)

(** [DEFAULT_EXCLUDED_DIRS] (core.py, lines 15-29). *)
Definition DEFAULT_EXCLUDED_DIRS : gset string :=
  {[ ".git"; ".hg"; ".svn"; ".venv"; "venv"; "env"; "__pycache__";
     ".pytest_cache"; ".mypy_cache"; ".ruff_cache"; "node_modules"; "dist";
     "build" ]}.

(** [get_stdlib_modules] (core.py, lines 66-69).  The argument is
    [sys.stdlib_module_names], or [None] when [sys] has no such attribute. *)
Definition get_stdlib_modules (stdlib_module_names : option (list string))
    : gset string :=
  match stdlib_module_names with
  | Some names => list_to_set (Text.lower <$> names)
  | None => ∅
  end.

Module Analysis.

(** The [Analysis] record (core.py, lines 34-44) without its two path
    fields. *)
Record t := mk {
  scanned_files : nat;
  imports : gset string;
  local_modules : gset string;
  inferred_dependencies : gset string;
  declared_dependencies : gset string;
  missing_dependencies : gset string;
  unused_dependencies : gset string
}.

End Analysis.

Section Analyze.

Variable ast_parse : string -> Ast.parse_result.
Variable tomllib_loads : string -> option (list (string * Toml.value)).
(** [importlib.metadata.packages_distributions()] of the environment. *)
Variable packages_distributions : list (string * list string).
(** [sys.stdlib_module_names] of the environment, if it has one. *)
Variable stdlib_module_names : option (list string).

(** [analyze_project] (core.py, lines 184-227).  [pyproject] is the text
    of the manifest at the resolved path, [None] when nothing exists there.
    An argument that is [None] or empty is replaced by its default
    ([x or default]).  The result is [None] when an exception is raised. *)
Definition analyze_project
    (project_path : Fs.entry) (pyproject : option string)
    (excluded_dirs : option (gset string))
    (explicit_map : option (gmap string string))
    (distribution_map : option (gmap string (list string)))
    (stdlib_modules : option (gset string)) : option Analysis.t :=
  match pyproject with
  | None => None
  | Some _ =>
      let excluded_dirs :=
        match excluded_dirs with
        | Some given => if decide (given = ∅) then DEFAULT_EXCLUDED_DIRS else given
        | None => DEFAULT_EXCLUDED_DIRS
        end in
      let distribution_map :=
        match distribution_map with
        | Some given =>
            if decide (given = ∅) then build_distribution_map packages_distributions
            else given
        | None => build_distribution_map packages_distributions
        end in
      let stdlib_modules :=
        match stdlib_modules with
        | Some given =>
            if decide (given = ∅) then get_stdlib_modules stdlib_module_names
            else given
        | None => get_stdlib_modules stdlib_module_names
        end in
      match collect_imports ast_parse project_path excluded_dirs with
      | None => None
      | Some (imports, scanned_files) =>
          match discover_local_modules project_path with
          | None => None
          | Some local_modules =>
              let inferred_dependencies :=
                infer_dependencies imports distribution_map local_modules
                  stdlib_modules explicit_map in
              match load_declared_dependencies tomllib_loads pyproject with
              | None => None
              | Some (declared_dependencies, _) =>
                  Some (Analysis.mk scanned_files imports local_modules
                          inferred_dependencies declared_dependencies
                          (missing_dependencies inferred_dependencies
                             declared_dependencies)
                          (unused_dependencies inferred_dependencies
                             declared_dependencies))
              end
          end
      end
  end.

End Analyze.

(** ** Command line (cli.py) *)

(** [entry.split("=", 1)] for an entry that contains [=]: the text before
    the first [=] and the text after it; [None] when there is no [=]. *)
Fixpoint split_at_equals (entry : string) : option (string * string) :=
  match entry with
  | EmptyString => None
  | String c rest =>
      if (Text.code c =? 61)%N then Some (EmptyString, rest)
      else match split_at_equals rest with
           | Some (before, after) => Some (String c before, after)
           | None => None
           end
  end.

(** [parse_map_values] (cli.py, lines 16-27); [None] stands for the
    [ValueError]. *)
Definition parse_map_values (entries : list string) : option (gmap string string) :=
  foldl (fun mapping entry =>
           match mapping with
           | None => None
           | Some mapping =>
               match split_at_equals entry with
               | None => None
               | Some (module, dependency) =>
                   let module := Text.lower (Text.strip module) in
                   let dependency := Text.strip dependency in
                   if negb (Text.truthy module) || negb (Text.truthy dependency)
                   then None
                   else Some (<[module := dependency]> mapping)
               end
           end)
        (Some ∅) entries.

(** The exclusion set that [main] passes on (cli.py, line 121). *)
Definition cli_excluded_dirs (exclude_dir : list string) : gset string :=
  DEFAULT_EXCLUDED_DIRS ∪ list_to_set exclude_dir.

(** The exit status of the [check] command (cli.py, lines 143-147). *)
Definition check_exit_code (analysis : Analysis.t) : nat :=
  if negb (bool_decide (Analysis.missing_dependencies analysis = ∅))
     || negb (bool_decide (Analysis.unused_dependencies analysis = ∅))
  then 1%nat else 0%nat.

(** Where a file lies in a directory tree: [located top dirs name text]
    when, going down from [top] through the sub-directories [dirs], one
    reaches a file [name] with text [text]. *)
Inductive located : Fs.entry -> list string -> string -> option string -> Prop :=
| located_here top_name entries name text :
    Fs.File name text ∈ entries ->
    located (Fs.Dir top_name entries) [] name text
| located_below top_name entries directory children dirs name text :
    Fs.Dir directory children ∈ entries ->
    located (Fs.Dir directory children) dirs name text ->
    located (Fs.Dir top_name entries) (directory :: dirs) name text.

(** The project of [tests/test_core.py], used to run the analysis: an
    application file with four imports, a local module, and a manifest
    that declares [requests>=2.0] and [unusedpkg]. *)
Module TestProject.

Definition tree : Fs.entry :=
  Fs.Dir "project"
    [Fs.File "pyproject.toml" (Some "manifest");
     Fs.File "app.py"
       (Some (LineParser.text ["import os"; "import requests"; "import click";
                               "import localmod"]));
     Fs.File "localmod.py" (Some EmptyString);
     Fs.Dir ".venv" [Fs.File "site.py" (Some (LineParser.text ["import pip"]))]].

Definition tomllib_loads (text : string) : option (list (string * Toml.value)) :=
  Some [("project",
         Toml.Table [("name", Toml.Str "sample");
                     ("dependencies",
                      Toml.Array [Toml.Str "requests>=2.0"; Toml.Str "unusedpkg"])])].

Definition distribution_map : gmap string (list string) :=
  {[ "requests" := ["requests"]; "click" := ["click"]; "localmod" := ["localmod"] ]}.

Definition analyze :=
  analyze_project LineParser.parse tomllib_loads [] None.

Definition analysis : Analysis.t :=
  Analysis.mk 2 {[ "os"; "requests"; "click"; "localmod" ]}
    {[ "app"; "localmod" ]} {[ "requests"; "click" ]}
    {[ "requests"; "unusedpkg" ]} {[ "click" ]} {[ "unusedpkg" ]}.

End TestProject.

(** ** The sync planner in the words of the specification

    Section 4.6 of the specification describes the synced list without the
    intermediate dictionary: a declaration belongs to the name it
    normalizes to, the first declaration of a name is the one that counts,
    and a name without a declaration is emitted bare.  These definitions
    follow that wording; the theorems below compare them with
    [compute_synced_dependencies]. *)
Module SyncSpec.

Definition declared_name (dep : string) : string :=
  normalize_dist_name (parse_requirement_name dep).

(** The first declaration of [name] in the current list, if any. *)
Definition first_literal (current : list string) (name : string) : option string :=
  snd <$> list_find (fun dep => declared_name dep = name) current.

(** What the synced list shows for [name]. *)
Definition emitted (current : list string) (name : string) : string :=
  default name (first_literal current name).

End SyncSpec.

(** * Properties *)

(** ** The order on text *)

Section TextOrder.

Lemma ascii_compare_refl c : Ascii.compare c c = Eq.
Proof. unfold Ascii.compare. apply N.compare_refl. Qed.

Lemma ascii_compare_lt_trans a b c :
  Ascii.compare a b = Lt -> Ascii.compare b c = Lt -> Ascii.compare a c = Lt.
Proof.
  unfold Ascii.compare. rewrite !N.compare_lt_iff. apply N.lt_trans.
Qed.

Lemma compare_refl s : String.compare s s = Eq.
Proof.
  induction s as [|c s IH]; simpl; [done|].
  by rewrite ascii_compare_refl.
Qed.

Lemma compare_lt_trans a b c :
  String.compare a b = Lt -> String.compare b c = Lt -> String.compare a c = Lt.
Proof.
  revert b c. induction a as [|x a IH]; intros [|y b] [|z c]; simpl; try done.
  destruct (Ascii.compare x y) eqn:Hxy; try done;
    destruct (Ascii.compare y z) eqn:Hyz; try done; intros Hab Hbc.
  - apply Ascii.compare_eq_iff in Hxy, Hyz. subst.
    rewrite ascii_compare_refl. eauto.
  - apply Ascii.compare_eq_iff in Hxy. subst. by rewrite Hyz.
  - apply Ascii.compare_eq_iff in Hyz. subst. by rewrite Hxy.
  - by rewrite (ascii_compare_lt_trans _ _ _ Hxy Hyz).
Qed.

Lemma le_lt_or_eq a b : Text.le a b <-> Text.lt a b \/ a = b.
Proof.
  unfold Text.le, Text.lt, String.leb. split.
  - destruct (String.compare a b) eqn:Hc; try done; [right|left; done].
    by apply String.compare_eq_iff.
  - intros [->| ->]; [done|]. by rewrite compare_refl.
Qed.

Lemma lt_irrefl a : ~ Text.lt a a.
Proof. unfold Text.lt. by rewrite compare_refl. Qed.

#[global] Instance le_trans : Transitive Text.le.
Proof.
  intros a b c. rewrite !le_lt_or_eq.
  intros [Hab| ->] [Hbc| ->]; eauto.
  left. by eapply compare_lt_trans.
Qed.

#[global] Instance le_total : Total Text.le.
Proof. intros a b. apply String.leb_total. Qed.

#[global] Instance le_antisym : AntiSymm (=) Text.le.
Proof. intros a b. apply String.leb_antisym. Qed.

#[global] Instance lt_trans : Transitive Text.lt.
Proof. intros a b c. apply compare_lt_trans. Qed.

End TextOrder.

(** ** [sorted] *)

Lemma sorted_Permutation X : sorted X ≡ₚ elements X.
Proof. apply merge_sort_Permutation. Qed.

Lemma elem_of_sorted X x : x ∈ sorted X <-> x ∈ X.
Proof. by rewrite sorted_Permutation, elem_of_elements. Qed.

Lemma NoDup_sorted X : NoDup (sorted X).
Proof. rewrite sorted_Permutation. apply NoDup_elements. Qed.

Lemma StronglySorted_le_lt (l : list string) :
  NoDup l -> StronglySorted Text.le l -> StronglySorted Text.lt l.
Proof.
  induction 2 as [|x l Hl IH Hx]; constructor.
  - apply IH. by eapply NoDup_cons_1_2.
  - apply NoDup_cons in H as [Hnotin _].
    rewrite Forall_forall in Hx |- *. intros y Hy.
    destruct (proj1 (le_lt_or_eq x y) (Hx y Hy)) as [?| ->]; done.
Qed.

Lemma sorted_ascending X : StronglySorted Text.lt (sorted X).
Proof.
  apply StronglySorted_le_lt; [apply NoDup_sorted|].
  apply (StronglySorted_merge_sort _).
Qed.

(** ** Sync planner *)

Section SyncPlanner.

Import SyncSpec.

Lemma setdefault_lookup k v (m : gmap string string) n :
  setdefault k v m !! n =
  match m !! n with
  | Some old => Some old
  | None => if decide (k = n) then Some v else None
  end.
Proof.
  unfold setdefault. destruct (decide (k = n)) as [->|Hne].
  - destruct (m !! n) eqn:Hm; [by rewrite Hm|]. by rewrite lookup_insert_eq.
  - destruct (m !! k) eqn:Hk.
    + by destruct (m !! n).
    + rewrite lookup_insert_ne by done. by destruct (m !! n).
Qed.

(** The dictionary built by the first loop answers with the first
    declaration of a name. *)
Lemma current_map_lookup (current : list string) (m : gmap string string) n :
  foldl (fun m dep => setdefault (normalize_dist_name (parse_requirement_name dep)) dep m)
        m current !! n
  = match m !! n with
    | Some old => Some old
    | None => first_literal current n
    end.
Proof.
  revert m. induction current as [|dep current IH]; intros m; simpl.
  - by destruct (m !! n).
  - rewrite IH, setdefault_lookup. unfold first_literal. simpl.
    fold (declared_name dep).
    destruct (m !! n); [done|].
    destruct (decide (declared_name dep = n)) as [Heq|Hne]; simpl; [done|].
    by destruct (list_find _ current) as [[i d]|].
Qed.

Lemma compute_synced_emitted current inferred :
  compute_synced_dependencies current inferred = emitted current <$> sorted inferred.
Proof.
  unfold compute_synced_dependencies. apply list_fmap_ext.
  intros i n _. unfold emitted. by rewrite current_map_lookup, lookup_empty.
Qed.

Lemma first_literal_Some current n d :
  first_literal current n = Some d -> d ∈ current /\ declared_name d = n.
Proof.
  unfold first_literal. destruct (list_find _ current) as [[i x]|] eqn:Hf; [|done].
  simpl. intros [= ->]. apply list_find_Some in Hf as (Hi & Hx & _).
  split; [by eapply list_elem_of_lookup_2|done].
Qed.

(** An emitted string either declares the name or is the bare name. *)
Lemma emitted_cases current n :
  declared_name (emitted current n) = n \/ emitted current n = n.
Proof.
  unfold emitted. destruct (first_literal current n) as [d|] eqn:Hf; simpl.
  - left. by apply first_literal_Some in Hf as [_ ?].
  - by right.
Qed.

Lemma StronglySorted_lt_index (l : list string) j k a b :
  StronglySorted Text.lt l ->
  l !! j = Some a -> l !! k = Some b -> Text.lt a b -> (j < k)%nat.
Proof.
  intros Hl. revert j k. induction Hl as [|x l Hl IH Hx]; intros j k; [done|].
  rewrite Forall_forall in Hx.
  destruct j as [|j], k as [|k]; simpl.
  - intros [= ->] [= ->] Hlt. by apply lt_irrefl in Hlt.
  - lia.
  - intros Ha [= ->] Hlt. apply list_elem_of_lookup_2, Hx in Ha.
    destruct (lt_irrefl a). by etrans.
  - intros Ha Hb Hlt. apply ->Nat.succ_lt_mono. by eapply IH.
Qed.

(** [emitted] is the first declaration of the name, or the bare name when
    no declaration has it. *)
Lemma emitted_first_or_bare current n :
  (exists pre post,
      current = pre ++ emitted current n :: post
      /\ declared_name (emitted current n) = n
      /\ Forall (fun d => declared_name d <> n) pre)
  \/ (Forall (fun d => declared_name d <> n) current /\ emitted current n = n).
Proof.
  unfold emitted, first_literal.
  destruct (list_find _ current) as [[i d]|] eqn:Hf; simpl.
  - left. apply list_find_Some in Hf as (Hi & Hd & Hbefore).
    exists (take i current), (drop (S i) current). split_and!.
    + by rewrite take_drop_middle.
    + done.
    + apply Forall_lookup. intros j y [Hy Hj]%lookup_take_Some. eauto.
  - right. split; [|done]. by apply list_find_None in Hf.
Qed.

(** Re-running the planner on its own output, under the condition on the
    inferred names that makes the second dictionary agree with the first. *)
Lemma compute_synced_fixed_point current inferred :
  (forall n n', n ∈ inferred -> n' ∈ inferred -> declared_name n' = n ->
                n' = n \/ (Text.lt n n' /\ declared_name n = n)) ->
  compute_synced_dependencies (compute_synced_dependencies current inferred) inferred
  = compute_synced_dependencies current inferred.
Proof.
  intros Hkeys. rewrite (compute_synced_emitted current).
  rewrite compute_synced_emitted. apply list_fmap_ext. intros j n Hj.
  assert (n ∈ inferred) as Hn by (by eapply elem_of_sorted, list_elem_of_lookup_2).
  unfold emitted at 1, first_literal.
  destruct (list_find _ _) as [[k d]|] eqn:Hf; simpl.
  - apply list_find_Some in Hf as (Hk & Hd & Hbefore).
    apply list_lookup_fmap_Some_1 in Hk as (n' & -> & Hk).
    assert (n' ∈ inferred) as Hn' by (by eapply elem_of_sorted, list_elem_of_lookup_2).
    destruct (emitted_cases current n') as [Hdecl|Hbare].
    { rewrite Hdecl in Hd. by subst. }
    rewrite Hbare in Hd.
    destruct (Hkeys n n' Hn Hn' Hd) as [->|[Hlt Hself]]; [done|].
    exfalso.
    assert (j < k)%nat as Hjk
      by (eapply StronglySorted_lt_index; eauto using sorted_ascending).
    apply (Hbefore j (emitted current n)); [|done|].
    + by rewrite list_lookup_fmap, Hj.
    + destruct (emitted_cases current n) as [?|Hb]; [done|]. by rewrite Hb.
  - pose proof (proj1 (list_find_None _ _) Hf) as Hnone.
    rewrite Forall_forall in Hnone.
    destruct (emitted_cases current n) as [Hdecl|Hbare]; [|done].
    exfalso. apply (Hnone (emitted current n)); [|done].
    apply list_elem_of_fmap. exists n. split; [done|].
    by eapply list_elem_of_lookup_2.
Qed.

End SyncPlanner.

(** ** Normalized names *)

Section Normalization.

Lemma is_sep_lower_char c : Text.is_sep (Text.lower_char c) = Text.is_sep c.
Proof. by destruct c as [[] [] [] [] [] [] [] []]. Qed.

Lemma lower_char_idemp c : Text.lower_char (Text.lower_char c) = Text.lower_char c.
Proof. by destruct c as [[] [] [] [] [] [] [] []]. Qed.

Lemma lower_idemp s : Text.lower (Text.lower s) = Text.lower s.
Proof.
  induction s as [|c s IH]; simpl; [done|].
  by rewrite lower_char_idemp, IH.
Qed.

Lemma sub_runs_lower b s :
  Text.sub_runs b (Text.lower s) = Text.lower (Text.sub_runs b s).
Proof.
  revert b. induction s as [|c s IH]; intros b; simpl; [done|].
  rewrite is_sep_lower_char.
  destruct (Text.is_sep c), b; simpl; by rewrite ?IH.
Qed.

Lemma sub_runs_idemp b s :
  Text.sub_runs b (Text.sub_runs b s) = Text.sub_runs b s.
Proof.
  revert b. induction s as [|c s IH]; intros b; simpl; [done|].
  destruct (Text.is_sep c) eqn:Hc.
  - destruct b; simpl; by rewrite ?IH.
  - simpl. by rewrite Hc, IH.
Qed.

Lemma normalize_idemp name :
  normalize_dist_name (normalize_dist_name name) = normalize_dist_name name.
Proof.
  unfold normalize_dist_name.
  by rewrite sub_runs_lower, sub_runs_idemp, lower_idemp.
Qed.

End Normalization.

(** ** Distribution resolver *)

Section Resolver.

Context (distribution_map : gmap string (list string)).
Context (local_modules stdlib_modules : gset string).
Context (explicit_map : option (gmap string string)).

Local Abbreviation contrib :=
  (contribution distribution_map local_modules stdlib_modules explicit_map).

Lemma infer_step_contribution module inferred :
  infer_step distribution_map local_modules stdlib_modules
             (default ∅ explicit_map) module inferred
  = inferred ∪ contrib module.
Proof.
  unfold contribution, infer_step.
  destruct (decide _); [by rewrite (right_id_L ∅ (∪))|].
  destruct (default ∅ explicit_map !! module) as [mapped|];
    [destruct (Text.truthy mapped)|];
    try destruct (distribution_map !! module) as [[|first rest]|];
    by rewrite (left_id_L ∅ (∪)).
Qed.

(** The inferred set is the union of the contributions of the imports. *)
Lemma elem_of_infer_dependencies imports x :
  x ∈ infer_dependencies imports distribution_map local_modules stdlib_modules
        explicit_map
  <-> exists module, module ∈ imports /\ x ∈ contrib module.
Proof.
  unfold infer_dependencies. revert x.
  apply (set_fold_ind_L
           (fun acc (X : gset string) =>
              forall x, x ∈ acc <-> exists module, module ∈ X /\ x ∈ contrib module)).
  - intros x. split; [by intros ?%not_elem_of_empty|].
    by intros (module & ?%not_elem_of_empty & _).
  - intros module X acc Hfresh IH x.
    rewrite infer_step_contribution, elem_of_union, IH. split.
    + intros [(m & Hm & Hx)|Hx].
      * exists m. split; [apply elem_of_union; by right|done].
      * exists module. split; [apply elem_of_union; left; by apply elem_of_singleton|done].
    + intros (m & [->%elem_of_singleton|Hm]%elem_of_union & Hx); [by right|].
      left. by exists m.
Qed.

Lemma contribution_excluded module :
  module ∈ stdlib_modules \/ module ∈ local_modules -> contrib module = ∅.
Proof.
  intros Hex. unfold contribution, infer_step. by rewrite decide_True.
Qed.

Lemma contribution_normalized module x :
  x ∈ contrib module -> normalize_dist_name x = x.
Proof.
  unfold contribution, infer_step.
  destruct (decide _); [by intros ?%not_elem_of_empty|].
  destruct (default ∅ explicit_map !! module) as [mapped|];
    [destruct (Text.truthy mapped)|];
    try destruct (distribution_map !! module) as [[|first rest]|];
    rewrite elem_of_union, elem_of_singleton;
    (intros [?%not_elem_of_empty| ->]; [done|apply normalize_idemp]).
Qed.

Lemma contribution_singleton module :
  module ∉ stdlib_modules -> module ∉ local_modules ->
  contrib module =
  {[ normalize_dist_name
       (match default ∅ explicit_map !! module with
        | Some mapped_dep =>
            if Text.truthy mapped_dep then mapped_dep
            else match distribution_map !! module with
                 | Some (first :: _) => first
                 | _ => module
                 end
        | None =>
            match distribution_map !! module with
            | Some (first :: _) => first
            | _ => module
            end
        end) ]}.
Proof.
  intros Hstd Hloc. unfold contribution, infer_step.
  rewrite decide_False by (intros [?|?]; done).
  destruct (default ∅ explicit_map !! module) as [mapped|];
    [destruct (Text.truthy mapped)|];
    try destruct (distribution_map !! module) as [[|first rest]|];
    by rewrite (left_id_L ∅ (∪)).
Qed.

Lemma infer_dependencies_singleton module :
  infer_dependencies {[module]} distribution_map local_modules stdlib_modules
    explicit_map = contrib module.
Proof.
  apply set_eq. intros x. rewrite elem_of_infer_dependencies. split.
  - by intros (m & ->%elem_of_singleton & Hx).
  - intros Hx. exists module. split; [by apply elem_of_singleton|done].
Qed.

End Resolver.

Lemma infer_dependencies_ext imports dmap local stdlib emap emap' :
  (forall module, module ∈ imports ->
     contribution dmap local stdlib emap module
     = contribution dmap local stdlib emap' module) ->
  infer_dependencies imports dmap local stdlib emap
  = infer_dependencies imports dmap local stdlib emap'.
Proof.
  intros Hsame. apply set_eq. intros x. rewrite !elem_of_infer_dependencies.
  split; intros (m & Hm & Hx); exists m; (split; [done|]).
  - by rewrite <-Hsame.
  - by rewrite Hsame.
Qed.

(** *** The index built from the package metadata *)

(** The candidate list stored for a module comes from one reported item. *)
Lemma build_distribution_map_entries raw_map module candidates :
  build_distribution_map raw_map !! module = Some candidates ->
  candidates <> [] /\
  exists module_name distributions,
    (module_name, distributions) ∈ raw_map
    /\ Text.lower module_name = module
    /\ candidates = normalized_candidates distributions.
Proof.
  unfold build_distribution_map. revert module candidates.
  induction raw_map as [|[name dists] raw_map IH] using rev_ind;
    intros module candidates.
  - simpl. by rewrite lookup_empty.
  - rewrite foldl_snoc. simpl.
    match goal with
    | |- context [foldl ?f ∅ raw_map] => set (mapping := foldl f ∅ raw_map) in *
    end.
    assert (mapping !! module = Some candidates ->
            candidates <> [] /\
            exists module_name distributions,
              (module_name, distributions) ∈ raw_map ++ [(name, dists)]
              /\ Text.lower module_name = module
              /\ candidates = normalized_candidates distributions) as Hbefore.
    { intros Hm. destruct (IH _ _ Hm) as (Hne & n & d & Hin & Hn & Hc).
      split; [done|]. exists n, d. split_and!; [|done|done].
      apply elem_of_app. by left. }
    destruct (normalized_candidates dists) as [|c cs] eqn:Hnorm.
    { done. }
    destruct (decide (Text.lower name = module)) as [Heq|Hne].
    + rewrite Heq, lookup_insert_eq. intros [= <-]. split; [done|].
      exists name, dists. split_and!; [|done|done].
      apply elem_of_app. right. by apply list_elem_of_singleton.
    + by rewrite lookup_insert_ne.
Qed.

Lemma normalized_candidates_spec distributions :
  StronglySorted Text.lt (normalized_candidates distributions)
  /\ forall c, c ∈ normalized_candidates distributions
               <-> exists dep, dep ∈ distributions /\ dep <> EmptyString
                               /\ c = normalize_dist_name dep.
Proof.
  unfold normalized_candidates. split; [apply sorted_ascending|].
  intros c. rewrite elem_of_sorted, elem_of_list_to_set, list_elem_of_fmap.
  split.
  - intros (dep & -> & [Htrue Hin]%list_elem_of_filter).
    exists dep. split_and!; [done| |done]. intros ->. done.
  - intros (dep & Hin & Hne & ->). exists dep. split; [done|].
    apply list_elem_of_filter. split; [|done]. by destruct dep.
Qed.

Lemma build_distribution_map_snoc raw_map module_name distributions :
  build_distribution_map (raw_map ++ [(module_name, distributions)])
  = match normalized_candidates distributions with
    | [] => build_distribution_map raw_map
    | _ :: _ =>
        <[Text.lower module_name := normalized_candidates distributions]>
          (build_distribution_map raw_map)
    end.
Proof. unfold build_distribution_map. by rewrite foldl_snoc. Qed.

(** The entry of a module is the one of the last reported item with that
    lowercased name that has a candidate. *)
Lemma build_distribution_map_lookup
    (raw_map : list (string * list string)) (module : string)
    (candidates : list string) :
  build_distribution_map raw_map !! module = Some candidates
  <-> exists pre module_name distributions post,
        raw_map = pre ++ (module_name, distributions) :: post
        /\ Text.lower module_name = module
        /\ normalized_candidates distributions = candidates
        /\ candidates <> []
        /\ Forall (fun item => Text.lower (fst item) = module ->
                               normalized_candidates (snd item) = [])
                  post.
Proof.
  revert candidates.
  induction raw_map as [|[name dists] raw_map IH] using rev_ind; intros candidates.
  { split; [by unfold build_distribution_map; simpl; rewrite lookup_empty|].
    intros (pre & n & d & post & Heq & _). by destruct pre. }
  rewrite build_distribution_map_snoc. split.
  - assert (build_distribution_map raw_map !! module = Some candidates ->
            (Text.lower name = module -> normalized_candidates dists = []) ->
            exists pre module_name distributions post,
              raw_map ++ [(name, dists)] = pre ++ (module_name, distributions) :: post
              /\ Text.lower module_name = module
              /\ normalized_candidates distributions = candidates
              /\ candidates <> []
              /\ Forall (fun item => Text.lower (fst item) = module ->
                                     normalized_candidates (snd item) = [])
                        post) as Hold.
    { intros (pre & n & d & post & -> & Hn & Hd & Hne & Hpost)%IH Hlast.
      exists pre, n, d, (post ++ [(name, dists)]). split_and!; try done.
      - by rewrite <-app_assoc.
      - apply Forall_app. split; [done|]. by apply Forall_singleton. }
    destruct (normalized_candidates dists) as [|c cs] eqn:Hnorm.
    { intros Hm. by apply Hold. }
    destruct (decide (Text.lower name = module)) as [Heq|Hne].
    + rewrite Heq, lookup_insert_eq. intros [= <-].
      exists raw_map, name, dists, []. by split_and!.
    + rewrite lookup_insert_ne by done. intros Hm. by apply Hold.
  - intros (pre & n & d & post & Heq & Hn & Hd & Hne & Hpost).
    destruct post as [|last post _] using rev_ind.
    + apply app_inj_tail in Heq as [-> [= -> ->]].
      rewrite Hd. destruct candidates as [|c cs]; [done|].
      by rewrite Hn, lookup_insert_eq.
    + rewrite app_comm_cons, app_assoc in Heq.
      apply app_inj_tail in Heq as [-> <-].
      apply Forall_app in Hpost as [Hpost Hlast].
      apply Forall_inv in Hlast. simpl in Hlast.
      assert (build_distribution_map (pre ++ (n, d) :: post) !! module
              = Some candidates) as Hold.
      { apply IH. by exists pre, n, d, post. }
      destruct (normalized_candidates dists) as [|c cs] eqn:Hnorm; [done|].
      rewrite lookup_insert_ne; [done|]. intros Heq. by specialize (Hlast Heq).
Qed.

(** An item has no candidate exactly when it reports only empty names. *)
Lemma normalized_candidates_nil distributions :
  normalized_candidates distributions = []
  <-> forall dep, dep ∈ distributions -> dep = EmptyString.
Proof.
  destruct (normalized_candidates_spec distributions) as [_ Hmem]. split.
  - intros Hnil dep Hdep. destruct (decide (dep = EmptyString)) as [|Hne]; [done|].
    assert (normalize_dist_name dep ∈ normalized_candidates distributions) as Hin
      by (apply Hmem; by exists dep).
    rewrite Hnil in Hin. by apply elem_of_nil in Hin.
  - intros Hall. destruct (normalized_candidates distributions) as [|c cs]; [done|].
    destruct (proj1 (Hmem c)) as (dep & Hdep & Hne & _); [apply list_elem_of_here|].
    by specialize (Hall dep Hdep).
Qed.

(** ** Source scanner *)

Section ScannerFacts.

Lemma elem_of_foldl_union {A} (f : A -> gset string) (l : list A) acc x :
  x ∈ foldl (fun acc y => acc ∪ f y) acc l
  <-> x ∈ acc \/ exists y, y ∈ l /\ x ∈ f y.
Proof.
  revert acc. induction l as [|y l IH]; intros acc; simpl.
  - split; [by left|]. intros [?|(y & Hy & _)]; [done|]. by apply elem_of_nil in Hy.
  - rewrite IH, elem_of_union. split.
    + intros [[?|?]|(z & Hz & Hx)]; [by left| |].
      * right. exists y. split; [apply list_elem_of_here|done].
      * right. exists z. split; [by apply list_elem_of_further|done].
    + intros [?|(z & [->|Hz]%elem_of_cons & Hx)]; [by left; left|by left; right|].
      right. by exists z.
Qed.

Lemma foldl_union_list {A} (f : A -> gset string) (l : list A) acc :
  foldl (fun acc y => acc ∪ f y) acc l = acc ∪ ⋃ (f <$> l).
Proof.
  revert acc. induction l as [|y l IH]; intros acc; simpl.
  - by rewrite (right_id_L ∅ (∪)).
  - csimpl. by rewrite IH, (assoc_L (∪)).
Qed.

Lemma union_list_filter {A} (f : A -> gset string) (p : A -> bool) (l : list A) :
  (forall y, p y = false -> f y = ∅) ->
  ⋃ (f <$> l) = ⋃ (f <$> List.filter p l).
Proof.
  intros Hempty. induction l as [|y l IH]; csimpl; [done|].
  destruct (p y) eqn:Hp; csimpl; rewrite IH; [done|].
  by rewrite (Hempty y Hp), (left_id_L ∅ (∪)).
Qed.

(** What one node adds to the import set. *)
Lemma elem_of_visit_node imports node x :
  x ∈ visit_node imports node
  <-> x ∈ imports
      \/ (exists names alias,
            node = Ast.Import names /\ alias ∈ names
            /\ x = Text.lower (Text.first_segment (Ast.name alias)))
      \/ (exists module names,
            node = Ast.ImportFrom (Some module) names 0 /\ module <> EmptyString
            /\ x = Text.lower (Text.first_segment module)).
Proof.
  destruct node as [names|module names level|children]; simpl.
  - rewrite (elem_of_foldl_union
               (fun alias => {[ Text.lower (Text.first_segment (Ast.name alias)) ]})).
    split.
    + intros [?|(alias & Hin & ->%elem_of_singleton)]; [by left|].
      right; left. by exists names, alias.
    + intros [?|[(names' & alias & [= <-] & Hin & ->)|(? & ? & [=] & _)]];
        [by left|].
      right. exists alias. split; [done|]. by apply elem_of_singleton.
  - destruct module as [module|].
    + destruct level as [|level]; simpl.
      * destruct module as [|c module]; simpl.
        -- split; [by left|].
           intros [?|[(? & ? & [=] & _)|(? & ? & [= <- _] & Hne & _)]]; done.
        -- rewrite elem_of_union, elem_of_singleton. split.
           ++ intros [?| ->]; [by left|]. right; right.
              by exists (String c module), names.
           ++ intros [?|[(? & ? & [=] & _)|(? & ? & [= <- _] & _ & ->)]];
                [by left|by right].
      * split; [by left|].
        intros [?|[(? & ? & [=] & _)|(? & ? & [=] & _)]]; done.
    + split; [by left|].
      intros [?|[(? & ? & [=] & _)|(? & ? & [=] & _)]]; done.
  - split; [by left|].
    intros [?|[(? & ? & [=] & _)|(? & ? & [=] & _)]]; done.
Qed.

Lemma elem_of_foldl_visit_node nodes acc x :
  x ∈ foldl visit_node acc nodes
  <-> x ∈ acc \/ exists node, node ∈ nodes /\ x ∈ visit_node ∅ node.
Proof.
  revert acc. induction nodes as [|node nodes IH]; intros acc; simpl.
  - split; [by left|]. intros [?|(y & Hy & _)]; [done|]. by apply elem_of_nil in Hy.
  - rewrite IH, elem_of_visit_node. split.
    + intros [[?|Hadds]|(z & Hz & Hx)]; [by left| |].
      * right. exists node. split; [apply list_elem_of_here|].
        apply elem_of_visit_node. by right.
      * right. exists z. split; [by apply list_elem_of_further|done].
    + intros [?|(z & [->|Hz]%elem_of_cons & Hx)]; [by left; left| |].
      * apply elem_of_visit_node in Hx as [?%not_elem_of_empty|?]; [done|].
        left. by right.
      * right. by exists z.
Qed.

End ScannerFacts.

(** ** Normalized names and their prefixes *)

Section Prefixes.

Lemma app_String c s u : String c s +:+ u = String c (s +:+ u).
Proof. reflexivity. Qed.

Lemma app_empty u : EmptyString +:+ u = u.
Proof. reflexivity. Qed.

Lemma length_sub_runs b s :
  (String.length (Text.sub_runs b s) <= String.length s)%nat.
Proof.
  revert b. induction s as [|c s IH]; intros b; simpl; [done|].
  destruct (Text.is_sep c), b; simpl;
    first [apply le_n_S, IH | etrans; [apply IH|lia]].
Qed.

Lemma length_lower s : String.length (Text.lower s) = String.length s.
Proof. induction s as [|c s IH]; simpl; by rewrite ?IH. Qed.

(** A prefix of a normalized text is normalized, whatever the state of the
    run before it. *)
Lemma normalized_prefix b (p u : string) :
  Text.lower (Text.sub_runs b (p +:+ u)) = (p +:+ u) ->
  Text.lower (Text.sub_runs b p) = p.
Proof.
  revert b. induction p as [|c p IH]; intros b; simpl; [done|].
  destruct (Text.is_sep c) eqn:Hc.
  - destruct b; simpl.
    + intros Heq. apply (f_equal String.length) in Heq.
      rewrite length_lower in Heq. simpl in Heq.
      pose proof (length_sub_runs true (p +:+ u)). lia.
    + intros [= Hhead Htail]. by rewrite <-Hhead, (IH true Htail).
  - simpl. intros [= Hhead Htail]. by rewrite Hhead, (IH false Htail).
Qed.

Lemma take_while_prefix p s : exists u, s = (Text.take_while p s +:+ u).
Proof.
  induction s as [|c s [u Hu]]; simpl; [by exists EmptyString|].
  destruct (p c).
  - exists u. rewrite app_String. by f_equal.
  - by exists (String c s).
Qed.

Lemma rstrip_prefix s : exists u, s = (Text.rstrip s +:+ u).
Proof.
  induction s as [|c s [u Hu]]; simpl; [by exists EmptyString|].
  destruct (Text.rstrip s) as [|d rest] eqn:Hr.
  - destruct (Text.is_space c).
    + by exists (String c s).
    + exists u. rewrite app_String. by f_equal.
  - exists u. rewrite app_String. by f_equal.
Qed.

Lemma take_while_idemp p s :
  Text.take_while p (Text.take_while p s) = Text.take_while p s.
Proof.
  induction s as [|c s IH]; simpl; [done|].
  destruct (p c) eqn:Hp; simpl; [|done]. by rewrite Hp, IH.
Qed.

Lemma rstrip_idemp s : Text.rstrip (Text.rstrip s) = Text.rstrip s.
Proof.
  induction s as [|c s IH]; simpl; [done|].
  destruct (Text.rstrip s) as [|d rest] eqn:Hr.
  - destruct (Text.is_space c) eqn:Hc; simpl; [done|]. by rewrite Hc.
  - simpl in *. by rewrite IH.
Qed.

Lemma rstrip_head c s :
  Text.rstrip (String c s) = EmptyString
  \/ exists rest, Text.rstrip (String c s) = String c rest.
Proof.
  simpl. destruct (Text.rstrip s); [destruct (Text.is_space c)|]; eauto.
Qed.

Lemma alnum_not_space c : Text.is_alnum c = true -> Text.is_space c = false.
Proof. by destruct c as [[] [] [] [] [] [] [] []]. Qed.

(** A text is never below one of its prefixes. *)
Lemma prefix_le (p u : string) :
  p = (p +:+ u) \/ Text.lt p (p +:+ u).
Proof.
  unfold Text.lt. induction p as [|c p IH].
  - rewrite app_empty. destruct u; [by left|by right].
  - rewrite app_String. simpl. rewrite ascii_compare_refl.
    destruct IH as [<-|?]; [by left|by right].
Qed.

End Prefixes.

(** ** Names that are their own declared name *)

Section OwnNames.

Import SyncSpec.

Lemma length_lstrip s : (String.length (Text.lstrip s) <= String.length s)%nat.
Proof.
  induction s as [|c s IH]; simpl; [done|].
  destruct (Text.is_space c); simpl; lia.
Qed.

Lemma lstrip_fixed_head c rest :
  Text.lstrip (String c rest) = String c rest -> Text.is_space c = false.
Proof.
  simpl. destruct (Text.is_space c); [|done].
  intros Heq. apply (f_equal String.length) in Heq. simpl in Heq.
  pose proof (length_lstrip rest). lia.
Qed.

(** Without leading white space, the requirement name is a prefix of the
    text and parses to itself. *)
Lemma parse_requirement_name_unpadded n :
  Text.lstrip n = n ->
  (exists u, n = parse_requirement_name n +:+ u)
  /\ parse_requirement_name (parse_requirement_name n) = parse_requirement_name n.
Proof.
  intros Hlead. destruct n as [|c rest]; [split; [by exists EmptyString|done]|].
  pose proof (lstrip_fixed_head c rest Hlead) as Hsp.
  unfold parse_requirement_name at 1 3 4. rewrite Hlead.
  destruct (Text.is_alnum c) eqn:Hc.
  - split.
    + destruct (take_while_prefix Text.is_name_char rest) as [u Hu].
      exists u. rewrite app_String. by f_equal.
    + unfold parse_requirement_name. simpl.
      by rewrite Hsp, Hc, take_while_idemp.
  - unfold Text.strip. rewrite Hlead. split; [apply rstrip_prefix|].
    destruct (rstrip_head c rest) as [Hempty|[rest' Hrest]].
    + by rewrite Hempty.
    + unfold parse_requirement_name, Text.strip. rewrite Hrest. simpl Text.lstrip.
      rewrite Hsp, Hc, <-Hrest. apply rstrip_idemp.
Qed.

(** A normalized name without leading white space declares a prefix of
    itself, and that prefix declares itself. *)
Lemma declared_name_of_normalized n :
  normalize_dist_name n = n -> Text.lstrip n = n ->
  (declared_name n = n \/ Text.lt (declared_name n) n)
  /\ declared_name (declared_name n) = declared_name n.
Proof.
  intros Hnorm Hlead.
  destruct (parse_requirement_name_unpadded n Hlead) as [[u Hu] Hparse].
  assert (normalize_dist_name (parse_requirement_name n) = parse_requirement_name n)
    as Hpre.
  { unfold normalize_dist_name in *.
    apply (normalized_prefix false _ u). by rewrite <-Hu. }
  unfold declared_name. rewrite Hpre, Hparse, Hpre. split; [|done].
  rewrite Hu at 2 4. apply prefix_le.
Qed.

(** The condition of [compute_synced_fixed_point] holds for normalized
    names without leading white space. *)
Lemma normalized_names_keys (inferred : gset string) :
  (forall n, n ∈ inferred -> normalize_dist_name n = n /\ Text.lstrip n = n) ->
  forall n n', n ∈ inferred -> n' ∈ inferred -> declared_name n' = n ->
               n' = n \/ (Text.lt n n' /\ declared_name n = n).
Proof.
  intros Hall n n' Hn Hn' Hdecl.
  destruct (Hall n' Hn') as [Hnorm Hlead].
  destruct (declared_name_of_normalized n' Hnorm Hlead) as [[Heq|Hlt] Hself];
    rewrite Hdecl in *; [by left|by right].
Qed.

End OwnNames.

(** ** Requirements with a qualifier *)

Section Qualifiers.

Lemma lstrip_idemp s : Text.lstrip (Text.lstrip s) = Text.lstrip s.
Proof.
  induction s as [|c s IH]; simpl; [done|].
  destruct (Text.is_space c) eqn:Hc; [done|]. simpl. by rewrite Hc.
Qed.

Lemma parse_requirement_name_lstrip s :
  parse_requirement_name (Text.lstrip s) = parse_requirement_name s.
Proof.
  unfold parse_requirement_name, Text.strip. by rewrite !lstrip_idemp.
Qed.

(** White space, a name, and a rest that does not continue the name:
    the pattern captures the name. *)
Lemma parse_requirement_name_qualified
    (space : string) (c : ascii) (name rest : string) :
  Forall (fun d => Text.is_space d = true) (list_ascii_of_string space) ->
  Text.is_alnum c = true ->
  Forall (fun d => Text.is_name_char d = true) (list_ascii_of_string name) ->
  match rest with
  | EmptyString => True
  | String d _ => Text.is_name_char d = false
  end ->
  parse_requirement_name (space +:+ String c name +:+ rest) = String c name.
Proof.
  intros Hspace Hc Hname Hrest.
  rewrite <-parse_requirement_name_lstrip.
  assert (Text.lstrip (space +:+ String c name +:+ rest) = String c (name +:+ rest))
    as ->.
  { induction space as [|d space IH].
    - rewrite app_empty, app_String. simpl. by rewrite (alnum_not_space c Hc).
    - simpl in Hspace. apply Forall_cons in Hspace as [Hd Hspace].
      rewrite app_String. simpl. rewrite Hd. by apply IH. }
  unfold parse_requirement_name. simpl.
  rewrite (alnum_not_space c Hc), Hc. f_equal.
  clear Hc. induction name as [|d name IH].
  - rewrite app_empty. destruct rest as [|d rest]; [done|]. simpl. by rewrite Hrest.
  - simpl in Hname. apply Forall_cons in Hname as [Hd Hname].
    rewrite app_String. simpl. rewrite Hd. f_equal. by apply IH.
Qed.

(** A name of small letters and digits is its own normalized form. *)
Lemma normalize_plain s :
  Forall (fun d => Text.in_range 97 122 d || Text.in_range 48 57 d = true)
         (list_ascii_of_string s) ->
  normalize_dist_name s = s.
Proof.
  unfold normalize_dist_name. induction s as [|c s IH]; simpl; [done|].
  intros [Hc Hs]%Forall_cons.
  assert (Text.is_sep c = false /\ Text.lower_char c = c) as [-> Hlow]
    by (by destruct c as [[] [] [] [] [] [] [] []]).
  simpl. by rewrite Hlow, IH.
Qed.

(** The first declaration of a name is the one the dictionary answers
    with. *)
Lemma first_literal_first pre dep post n :
  SyncSpec.declared_name dep = n ->
  Forall (fun d => SyncSpec.declared_name d <> n) pre ->
  SyncSpec.first_literal (pre ++ dep :: post) n = Some dep.
Proof.
  intros Hdep Hpre. unfold SyncSpec.first_literal.
  assert (list_find (fun d => SyncSpec.declared_name d = n) (pre ++ dep :: post)
          = Some (length pre, dep)) as ->; [|done].
  apply list_find_Some. split_and!.
  - by rewrite list_lookup_middle.
  - done.
  - intros j y Hj Hlt. rewrite lookup_app_l in Hj by done.
    rewrite Forall_forall in Hpre. eapply Hpre, list_elem_of_lookup_2, Hj.
Qed.

End Qualifiers.

(** ** First segments and lower case *)

Section SegmentFacts.

Lemma first_segment_dotless head :
  (forall i, String.get i head <> Some "."%char) -> Text.first_segment head = head.
Proof.
  induction head as [|c head IH]; simpl; [done|]. intros Hdotless.
  destruct (Text.code c =? 46)%N eqn:Hc.
  - destruct (Hdotless 0%nat). simpl. f_equal.
    apply N.eqb_eq in Hc. unfold Text.code in Hc.
    rewrite <-(ascii_N_embedding c), Hc. reflexivity.
  - f_equal. apply IH. intros i. apply (Hdotless (S i)).
Qed.

Lemma first_segment_head head tail :
  (forall i, String.get i head <> Some "."%char) ->
  Text.first_segment (head +:+ "." +:+ tail) = head.
Proof.
  induction head as [|c head IH]; intros Hdotless.
  - by rewrite app_empty.
  - rewrite app_String. simpl.
    destruct (Text.code c =? 46)%N eqn:Hc.
    + destruct (Hdotless 0%nat). simpl. f_equal.
      apply N.eqb_eq in Hc. unfold Text.code in Hc.
      rewrite <-(ascii_N_embedding c), Hc. reflexivity.
    + f_equal. apply IH. intros i. apply (Hdotless (S i)).
Qed.

Lemma lower_char_ascii c :
  (Text.code c < 128)%N ->
  Text.lower_char c
  = if (65 <=? Text.code c)%N && (Text.code c <=? 90)%N
    then ascii_of_N (Text.code c + 32) else c.
Proof. by destruct c as [[] [] [] [] [] [] [] []]. Qed.

Lemma get_lower_char i s :
  String.get i (Text.lower s) = Text.lower_char <$> String.get i s.
Proof.
  revert i. induction s as [|c s IH]; intros [|i]; simpl; by try apply IH.
Qed.

End SegmentFacts.

(** ** Manifest reader *)

Lemma load_declared_dependencies_sets tomllib_loads pyproject declared raw :
  load_declared_dependencies tomllib_loads pyproject = Some (declared, raw) ->
  declared = list_to_set (SyncSpec.declared_name <$> raw).
Proof.
  unfold load_declared_dependencies. intros Hload.
  destruct pyproject as [text|]; simpl in Hload; [|done].
  destruct (tomllib_loads text) as [data|]; simpl in Hload; [|done].
  destruct (match Toml.get data "project" with
            | Some (Toml.Table project) => _
            | Some _ => _
            | None => _
            end) as [found|]; simpl in Hload; [|done].
  destruct (Toml.iterate _) as [items|]; simpl in Hload; [|done].
  by injection Hload as <- <-.
Qed.

(** ** UTF-8 *)

Section Utf8Facts.

Lemma decode_ascii c bytes :
  (Text.code c < 128)%N ->
  Utf8.decode (String c bytes) = String c <$> Utf8.decode bytes.
Proof. intros Hc%N.ltb_lt. simpl. by rewrite Hc. Qed.

Lemma decode_two_bytes c bytes :
  (Text.code c <? 128)%N = false ->
  Utf8.decode (String (ascii_of_N (192 + Text.code c / 64))
                 (String (ascii_of_N (128 + Text.code c mod 64)) bytes))
  = String c <$> Utf8.decode bytes.
Proof. by destruct c as [[] [] [] [] [] [] [] []]. Qed.


(** Reading back what was written gives the text. *)
Lemma decode_encode text : Utf8.decode (Utf8.encode text) = Some text.
Proof.
  induction text as [|c text IH]; [done|]. simpl Utf8.encode.
  destruct (Text.code c <? 128)%N eqn:Hc.
  - rewrite decode_ascii by (by apply N.ltb_lt). by rewrite IH.
  - rewrite (decode_two_bytes c _ Hc). by rewrite IH.
Qed.


End Utf8Facts.

(** * Main results *)

(** ** Sync planner *)

(** C3.  The synced list follows the inferred names in strictly ascending
    order of their text.  At the position of a name it shows the first
    declaration of the current list that normalizes to this name, kept
    literally, and the bare name when no declaration normalizes to it.
    The name of a declaration is read off its text: for a declaration made
    of white space, a name that starts with a letter or digit and goes on
    with letters, digits, dots, underscores and hyphens, and a qualifier
    that starts with another character, it is the normalized name, which
    for a name of small letters and digits is the name itself; the first
    such declaration of an inferred name is shown with its qualifier. *)
Theorem synced_list_sorted_with_first_literals
    (current : list string) (inferred : gset string) :
  exists names : list string,
    StronglySorted Text.lt names
    /\ (forall n, n ∈ names <-> n ∈ inferred)
    /\ length (compute_synced_dependencies current inferred) = length names
    /\ (forall i n, names !! i = Some n ->
         exists out,
           compute_synced_dependencies current inferred !! i = Some out
           /\ ((exists pre post,
                  current = pre ++ out :: post
                  /\ SyncSpec.declared_name out = n
                  /\ Forall (fun d => SyncSpec.declared_name d <> n) pre)
               \/ (Forall (fun d => SyncSpec.declared_name d <> n) current
                   /\ out = n)))
    /\ (forall pre space c name rest post n,
          current = pre ++ (space +:+ String c name +:+ rest) :: post ->
          Forall (fun d => Text.is_space d = true) (list_ascii_of_string space) ->
          Text.is_alnum c = true ->
          Forall (fun d => Text.is_name_char d = true) (list_ascii_of_string name) ->
          match rest with
          | EmptyString => True
          | String d _ => Text.is_name_char d = false
          end ->
          n = normalize_dist_name (String c name) ->
          n ∈ inferred ->
          Forall (fun d => SyncSpec.declared_name d <> n) pre ->
          SyncSpec.declared_name (space +:+ String c name +:+ rest) = n
          /\ (Forall (fun d => Text.in_range 97 122 d || Text.in_range 48 57 d = true)
                     (list_ascii_of_string (String c name)) ->
              n = String c name)
          /\ exists i,
               names !! i = Some n
               /\ compute_synced_dependencies current inferred !! i
                  = Some (space +:+ String c name +:+ rest))
    /\ compute_synced_dependencies ["requests>=2.0"] {[ "requests" ]}
       = ["requests>=2.0"]
    /\ compute_synced_dependencies
         ["My_Package.Name[extra] >= 1.0"; "my-package-name==2"; "unusedpkg"]
         {[ "my-package-name"; "click" ]}
       = ["click"; "My_Package.Name[extra] >= 1.0"].
Proof.
  exists (sorted inferred). split_and!.
  - apply sorted_ascending.
  - intros n. apply elem_of_sorted.
  - by rewrite compute_synced_emitted, length_fmap.
  - intros i n Hi. exists (SyncSpec.emitted current n). split.
    + by rewrite compute_synced_emitted, list_lookup_fmap, Hi.
    + apply emitted_first_or_bare.
  - intros pre space c name rest post n -> Hspace Hc Hname Hrest -> Hn Hpre.
    assert (SyncSpec.declared_name (space +:+ String c name +:+ rest)
            = normalize_dist_name (String c name)) as Hdecl.
    { unfold SyncSpec.declared_name.
      by rewrite parse_requirement_name_qualified. }
    split_and!; [done|by intros ->%normalize_plain|].
    apply elem_of_sorted, list_elem_of_lookup_1 in Hn as [i Hi].
    exists i. split; [done|].
    rewrite compute_synced_emitted, list_lookup_fmap, Hi. simpl. f_equal.
    unfold SyncSpec.emitted. by rewrite (first_literal_first _ _ _ _ Hdecl Hpre).
  - vm_compute. reflexivity.
  - vm_compute. reflexivity.
Qed.

Lemma synced_list_sorted_with_first_literals_witness :
  let current := ["unusedpkg"; "  requests>=2.0"; "requests==1"] in
  let inferred : gset string := {[ "requests"; "click" ]} in
  Forall (fun d => Text.is_space d = true) (list_ascii_of_string "  ")
  /\ Forall (fun d => Text.is_name_char d = true) (list_ascii_of_string "equests")
  /\ "requests" ∈ inferred
  /\ Forall (fun d => SyncSpec.declared_name d <> "requests") ["unusedpkg"]
  /\ exists i,
       compute_synced_dependencies current inferred !! i = Some "  requests>=2.0".
Proof.
  intros current inferred.
  assert (Forall (fun d => Text.is_space d = true) (list_ascii_of_string "  "))
    as Hspace by (repeat constructor).
  assert (Forall (fun d => Text.is_name_char d = true)
                 (list_ascii_of_string "equests"))
    as Hname by (repeat constructor).
  assert ("requests" ∈ inferred) as Hin
    by (apply elem_of_union; left; by apply elem_of_singleton).
  assert (Forall (fun d => SyncSpec.declared_name d <> "requests") ["unusedpkg"])
    as Hpre by (apply Forall_singleton; discriminate).
  split_and!; [exact Hspace|exact Hname|exact Hin|exact Hpre|].
  destruct (synced_list_sorted_with_first_literals current inferred)
    as (names & _ & _ & _ & _ & Hqualified & _).
  destruct (Hqualified ["unusedpkg"] "  " "r"%char "equests" ">=2.0" ["requests==1"]
              "requests" eq_refl Hspace eq_refl Hname eq_refl eq_refl Hin Hpre)
    as (_ & _ & i & _ & Hi).
  by exists i.
Defined.

(** C2 as stated fails.  Both names below are fixed points of
    [normalize_dist_name], and [infer_dependencies] returns this set when
    an override maps a module to [" foo"].  The first sync emits the names
    bare; on the second run the literal [" foo"] is found as the
    declaration of ["foo"]. *)
Lemma sync_twice_differs :
  let inferred : gset string := {[ " foo"; "foo" ]} in
  infer_dependencies {[ "a"; "foo" ]} ∅ ∅ ∅ (Some {[ "a" := " foo" ]}) = inferred
  /\ (forall n, n ∈ inferred -> normalize_dist_name n = n)
  /\ compute_synced_dependencies [] inferred = [" foo"; "foo"]
  /\ compute_synced_dependencies (compute_synced_dependencies [] inferred) inferred
     = [" foo"; " foo"]
  /\ compute_synced_dependencies (compute_synced_dependencies [] inferred) inferred
     <> compute_synced_dependencies [] inferred.
Proof.
  split_and!.
  - vm_compute. reflexivity.
  - intros n [->%elem_of_singleton| ->%elem_of_singleton]%elem_of_union; reflexivity.
  - vm_compute. reflexivity.
  - vm_compute. reflexivity.
  - vm_compute. discriminate.
Qed.

(** C2, amended.  When every inferred name is normalized and does not
    start with white space, syncing the synced list again with the same
    inferred set returns the same list. *)
Theorem sync_idempotent_on_normalized_names
    (current : list string) (inferred : gset string) :
  (forall n, n ∈ inferred -> normalize_dist_name n = n /\ Text.lstrip n = n) ->
  compute_synced_dependencies (compute_synced_dependencies current inferred) inferred
  = compute_synced_dependencies current inferred.
Proof.
  intros Hnames. apply compute_synced_fixed_point.
  by apply normalized_names_keys.
Qed.

Lemma sync_idempotent_on_normalized_names_witness :
  (forall n, n ∈ ({[ "click"; "requests" ]} : gset string) ->
             normalize_dist_name n = n /\ Text.lstrip n = n)
  /\ compute_synced_dependencies
       (compute_synced_dependencies ["requests>=2.0"; "unusedpkg"]
                                    {[ "click"; "requests" ]})
       {[ "click"; "requests" ]}
     = compute_synced_dependencies ["requests>=2.0"; "unusedpkg"]
                                   {[ "click"; "requests" ]}.
Proof.
  assert (forall n, n ∈ ({[ "click"; "requests" ]} : gset string) ->
                    normalize_dist_name n = n /\ Text.lstrip n = n) as Hnames.
  { intros n [->%elem_of_singleton| ->%elem_of_singleton]%elem_of_union;
      split; reflexivity. }
  split; [exact Hnames|].
  exact (sync_idempotent_on_normalized_names _ _ Hnames).
Defined.

(** ** Distribution resolver *)

(** C1 as stated fails.  The metadata reports [protobuf] first for the
    module [google]; the index stores the candidates sorted, and the
    resolver takes [google-api-core]. *)
Lemma reported_order_not_kept :
  let raw_map := [("google", ["protobuf"; "google-api-core"])] in
  build_distribution_map raw_map !! "google" = Some ["google-api-core"; "protobuf"]
  /\ infer_dependencies {[ "google" ]} (build_distribution_map raw_map) ∅ ∅ None
     = {[ "google-api-core" ]}
  /\ infer_dependencies {[ "google" ]} (build_distribution_map raw_map) ∅ ∅ None
     <> {[ normalize_dist_name "protobuf" ]}.
Proof.
  assert (infer_dependencies {[ "google" ]}
            (build_distribution_map [("google", ["protobuf"; "google-api-core"])])
            ∅ ∅ None = {[ "google-api-core" ]}) as Hinfer.
  { rewrite infer_dependencies_singleton, contribution_singleton
      by apply not_elem_of_empty.
    reflexivity. }
  split_and!; [by vm_compute|done|].
  simpl. rewrite Hinfer. intros Heq.
  assert ("google-api-core" ∈ ({[ normalize_dist_name "protobuf" ]} : gset string))
    as Hin by (rewrite <-Heq; by apply elem_of_singleton).
  apply elem_of_singleton in Hin. discriminate Hin.
Qed.

(** C1, amended.  For an import that is neither excluded nor overridden,
    the resolver takes the first candidate of the index entry it is given.
    In the index built from the package metadata the entry of a module is
    taken from one reported item: the last one whose lowercased module name
    is the module and that reports a non-empty distribution name.  The
    entry holds the non-empty names of that item, normalized, without
    duplicates and in strictly ascending order, so the candidate taken is
    the least normalized name of that item, not the first one reported. *)
Theorem resolver_takes_least_normalized_candidate
    (local_modules stdlib_modules : gset string)
    (explicit_map : option (gmap string string)) (module : string) :
  module ∉ stdlib_modules -> module ∉ local_modules ->
  default ∅ explicit_map !! module = None ->
  (forall (distribution_map : gmap string (list string)) first rest,
      distribution_map !! module = Some (first :: rest) ->
      infer_dependencies {[ module ]} distribution_map local_modules stdlib_modules
        explicit_map = {[ normalize_dist_name first ]})
  /\ (forall raw_map candidates,
        build_distribution_map raw_map !! module = Some candidates ->
        exists first rest pre module_name distributions post,
          candidates = first :: rest
          /\ StronglySorted Text.lt candidates
          /\ Forall (Text.lt first) rest
          /\ infer_dependencies {[ module ]} (build_distribution_map raw_map)
               local_modules stdlib_modules explicit_map = {[ first ]}
          /\ raw_map = pre ++ (module_name, distributions) :: post
          /\ Text.lower module_name = module
          /\ Forall (fun item => Text.lower (fst item) = module ->
                                 forall dep, dep ∈ snd item -> dep = EmptyString)
                    post
          /\ (forall c, c ∈ candidates
                        <-> exists dep, dep ∈ distributions /\ dep <> EmptyString
                                        /\ c = normalize_dist_name dep)
          /\ forall c, c ∈ candidates -> c = first \/ Text.lt first c)
  /\ (forall pre module_name distributions post dep,
        Text.lower module_name = module ->
        dep ∈ distributions -> dep <> EmptyString ->
        Forall (fun item => Text.lower (fst item) = module ->
                            forall dep, dep ∈ snd item -> dep = EmptyString)
               post ->
        exists first,
          infer_dependencies {[ module ]}
            (build_distribution_map (pre ++ (module_name, distributions) :: post))
            local_modules stdlib_modules explicit_map = {[ first ]}
          /\ (exists least, least ∈ distributions /\ least <> EmptyString
                            /\ first = normalize_dist_name least)
          /\ (first = normalize_dist_name dep
              \/ Text.lt first (normalize_dist_name dep))).
Proof.
  intros Hstd Hloc Hexp.
  assert (forall (distribution_map : gmap string (list string)) first rest,
            distribution_map !! module = Some (first :: rest) ->
            infer_dependencies {[ module ]} distribution_map local_modules
              stdlib_modules explicit_map = {[ normalize_dist_name first ]})
    as Hhead.
  { intros dmap first rest Hentry.
    rewrite infer_dependencies_singleton, contribution_singleton by done.
    by rewrite Hexp, Hentry. }
  assert (forall raw_map candidates,
        build_distribution_map raw_map !! module = Some candidates ->
        exists first rest pre module_name distributions post,
          candidates = first :: rest
          /\ StronglySorted Text.lt candidates
          /\ Forall (Text.lt first) rest
          /\ infer_dependencies {[ module ]} (build_distribution_map raw_map)
               local_modules stdlib_modules explicit_map = {[ first ]}
          /\ raw_map = pre ++ (module_name, distributions) :: post
          /\ Text.lower module_name = module
          /\ Forall (fun item => Text.lower (fst item) = module ->
                                 forall dep, dep ∈ snd item -> dep = EmptyString)
                    post
          /\ (forall c, c ∈ candidates
                        <-> exists dep, dep ∈ distributions /\ dep <> EmptyString
                                        /\ c = normalize_dist_name dep)
          /\ forall c, c ∈ candidates -> c = first \/ Text.lt first c) as Hbuilt.
  { intros raw_map candidates Hentry.
    destruct (proj1 (build_distribution_map_lookup _ _ _) Hentry)
      as (pre & name & dists & post & Hraw & Hname & Hcands & Hne & Hpost).
    destruct (normalized_candidates_spec dists) as [Hsorted Hmem].
    rewrite Hcands in Hsorted, Hmem.
    destruct candidates as [|first rest]; [done|].
    assert (Forall (Text.lt first) rest) as Hleast
      by (by apply StronglySorted_inv in Hsorted as [_ ?]).
    exists first, rest, pre, name, dists, post. split_and!; try done.
    - rewrite (Hhead _ first rest Hentry). f_equal.
      destruct (proj1 (Hmem first)) as (dep & _ & _ & ->); [apply list_elem_of_here|].
      apply normalize_idemp.
    - eapply Forall_impl; [exact Hpost|]. intros item Hitem Hlower.
      by apply normalized_candidates_nil, Hitem.
    - intros c [->|Hc]%elem_of_cons; [by left|right].
      rewrite Forall_forall in Hleast. by apply Hleast. }
  split_and!; [exact Hhead|exact Hbuilt|].
  intros pre name dists post dep Hname Hdep Hne Hpost.
  assert (normalize_dist_name dep ∈ normalized_candidates dists) as Hin.
  { apply normalized_candidates_spec. by exists dep. }
  assert (build_distribution_map (pre ++ (name, dists) :: post) !! module
          = Some (normalized_candidates dists)) as Hentry.
  { apply build_distribution_map_lookup. exists pre, name, dists, post.
    split_and!; try done.
    - intros Hnil. rewrite Hnil in Hin. by apply elem_of_nil in Hin.
    - eapply Forall_impl; [exact Hpost|]. intros item Hitem Hlower.
      by apply normalized_candidates_nil, Hitem. }
  destruct (normalized_candidates dists) as [|first rest] eqn:Hcands.
  { by apply elem_of_nil in Hin. }
  exists first. split_and!.
  - rewrite (Hhead _ first rest Hentry). f_equal.
    assert (first ∈ normalized_candidates dists) as Hfirst
      by (rewrite Hcands; apply list_elem_of_here).
    apply normalized_candidates_spec in Hfirst as (d & _ & _ & ->).
    apply normalize_idemp.
  - assert (first ∈ normalized_candidates dists) as Hfirst
      by (rewrite Hcands; apply list_elem_of_here).
    by apply normalized_candidates_spec in Hfirst.
  - apply elem_of_cons in Hin as [Heq|Hin]; [by left|right].
    pose proof (proj1 (normalized_candidates_spec dists)) as Hsorted.
    rewrite Hcands in Hsorted. apply StronglySorted_inv in Hsorted as [_ Hleast].
    rewrite Forall_forall in Hleast. by apply Hleast.
Qed.

Lemma resolver_takes_least_normalized_candidate_witness :
  ("foo" ∉ (∅ : gset string)) /\ ("foo" ∉ (∅ : gset string))
  /\ default ∅ (None : option (gmap string string)) !! "foo" = None
  /\ exists first,
       infer_dependencies {[ "foo" ]}
         (build_distribution_map
            ([("Foo", ["abc"])] ++ ("foo", ["zed"; "Yak"]) :: [("FOO", [EmptyString])]))
         ∅ ∅ None = {[ first ]}
       /\ (exists least, least ∈ ["zed"; "Yak"] /\ least <> EmptyString
                         /\ first = normalize_dist_name least)
       /\ (first = normalize_dist_name "zed"
           \/ Text.lt first (normalize_dist_name "zed")).
Proof.
  assert ("foo" ∉ (∅ : gset string)) as Hnot by apply not_elem_of_empty.
  assert (default ∅ (None : option (gmap string string)) !! "foo" = None) as Hexp
    by apply lookup_empty.
  assert (Text.lower "foo" = "foo") as Hname by reflexivity.
  assert ("zed" ∈ ["zed"; "Yak"]) as Hdep by apply list_elem_of_here.
  assert ("zed" <> EmptyString) as Hne by discriminate.
  assert (Forall (fun item : string * list string =>
                    Text.lower (fst item) = "foo" ->
                    forall dep, dep ∈ snd item -> dep = EmptyString)
                 [("FOO", [EmptyString])]) as Hpost.
  { apply Forall_singleton. intros _ dep Hin. by apply list_elem_of_singleton in Hin. }
  split_and!; [exact Hnot|exact Hnot|exact Hexp|].
  exact (proj2 (proj2 (resolver_takes_least_normalized_candidate ∅ ∅ None "foo"
                         Hnot Hnot Hexp))
           [("Foo", ["abc"])] "foo" ["zed"; "Yak"] [("FOO", [EmptyString])] "zed"
           Hname Hdep Hne Hpost).
Defined.

(** C4.  An import that is a standard-library module or a local module
    adds nothing to the inferred set, whatever the override map and the
    index hold for it: the inferred set is the one obtained without it. *)
Theorem stdlib_and_local_imports_skipped
    (imports : gset string) (distribution_map : gmap string (list string))
    (local_modules stdlib_modules : gset string)
    (explicit_map : option (gmap string string)) (module : string) :
  module ∈ stdlib_modules \/ module ∈ local_modules ->
  contribution distribution_map local_modules stdlib_modules explicit_map module = ∅
  /\ infer_dependencies {[ module ]} distribution_map local_modules stdlib_modules
       explicit_map = ∅
  /\ infer_dependencies imports distribution_map local_modules stdlib_modules
       explicit_map
     = infer_dependencies (imports ∖ {[ module ]}) distribution_map local_modules
         stdlib_modules explicit_map.
Proof.
  intros Hex.
  pose proof (contribution_excluded distribution_map _ _ explicit_map _ Hex) as Hnone.
  split_and!; [done|by rewrite infer_dependencies_singleton|].
  apply set_eq. intros x. rewrite !elem_of_infer_dependencies. split.
  - intros (m & Hm & Hx). exists m. split; [|done].
    apply elem_of_difference. split; [done|].
    intros ->%elem_of_singleton. rewrite Hnone in Hx. by apply not_elem_of_empty in Hx.
  - intros (m & [Hm _]%elem_of_difference & Hx). by exists m.
Qed.

Lemma stdlib_and_local_imports_skipped_witness :
  ("os" ∈ ({[ "os" ]} : gset string) \/ "os" ∈ (∅ : gset string))
  /\ infer_dependencies {[ "os"; "requests" ]} {[ "os" := ["os-sys"] ]}
       ∅ {[ "os" ]} (Some {[ "os" := "os-sys" ]})
     = infer_dependencies ({[ "os"; "requests" ]} ∖ {[ "os" ]}) {[ "os" := ["os-sys"] ]}
         ∅ {[ "os" ]} (Some {[ "os" := "os-sys" ]}).
Proof.
  assert ("os" ∈ ({[ "os" ]} : gset string) \/ "os" ∈ (∅ : gset string)) as Hex
    by (left; by apply elem_of_singleton).
  split; [exact Hex|].
  exact (proj2 (proj2 (stdlib_and_local_imports_skipped
                         {[ "os"; "requests" ]} {[ "os" := ["os-sys"] ]}
                         ∅ {[ "os" ]} (Some {[ "os" := "os-sys" ]}) "os" Hex))).
Defined.

(** C10.  An override that maps an import to the empty string counts as
    no override: the inferred set is the one obtained with the entry
    removed, and for an import that is not excluded the name comes from
    the first index candidate or, without one, from the import itself. *)
Theorem empty_override_falls_through
    (imports : gset string) (distribution_map : gmap string (list string))
    (local_modules stdlib_modules : gset string)
    (explicit_map : gmap string string) (module : string) :
  explicit_map !! module = Some EmptyString ->
  infer_dependencies imports distribution_map local_modules stdlib_modules
    (Some explicit_map)
  = infer_dependencies imports distribution_map local_modules stdlib_modules
      (Some (delete module explicit_map))
  /\ (module ∉ stdlib_modules -> module ∉ local_modules ->
      infer_dependencies {[ module ]} distribution_map local_modules stdlib_modules
        (Some explicit_map)
      = {[ normalize_dist_name
             (match distribution_map !! module with
              | Some (first :: _) => first
              | _ => module
              end) ]}).
Proof.
  intros Hempty. split.
  - apply infer_dependencies_ext. intros m _.
    unfold contribution, infer_step. simpl.
    destruct (decide (m ∈ stdlib_modules ∨ m ∈ local_modules)); [done|].
    destruct (decide (m = module)) as [->|Hne].
    + by rewrite Hempty, lookup_delete_eq.
    + by rewrite lookup_delete_ne.
  - intros Hstd Hloc.
    rewrite infer_dependencies_singleton, contribution_singleton by done.
    simpl. by rewrite Hempty.
Qed.

Lemma empty_override_falls_through_witness :
  ({[ "yaml" := EmptyString ]} : gmap string string) !! "yaml" = Some EmptyString
  /\ infer_dependencies {[ "yaml"; "click" ]} {[ "yaml" := ["pyyaml"] ]} ∅ ∅
       (Some {[ "yaml" := EmptyString ]})
     = infer_dependencies {[ "yaml"; "click" ]} {[ "yaml" := ["pyyaml"] ]} ∅ ∅
         (Some (delete "yaml" {[ "yaml" := EmptyString ]})).
Proof.
  assert (({[ "yaml" := EmptyString ]} : gmap string string) !! "yaml" = Some EmptyString) as Hentry
    by apply lookup_singleton_eq.
  split; [exact Hentry|].
  exact (proj1 (empty_override_falls_through
                  {[ "yaml"; "click" ]} {[ "yaml" := ["pyyaml"] ]} ∅ ∅
                  {[ "yaml" := EmptyString ]} "yaml" Hentry)).
Defined.

(** C9.  Every inferred name and every declared name is a fixed point of
    [normalize_dist_name], and so is every name of the two differences. *)
Theorem dependency_sets_hold_normalized_names
    (tomllib_loads : string -> option (list (string * Toml.value)))
    (imports : gset string) (distribution_map : gmap string (list string))
    (local_modules stdlib_modules : gset string)
    (explicit_map : option (gmap string string))
    (pyproject : option string) (declared : gset string) (raw : list string) :
  load_declared_dependencies tomllib_loads pyproject = Some (declared, raw) ->
  let inferred :=
    infer_dependencies imports distribution_map local_modules stdlib_modules
      explicit_map in
  (forall x, x ∈ inferred -> normalize_dist_name x = x)
  /\ (forall x, x ∈ declared -> normalize_dist_name x = x)
  /\ (forall x, x ∈ missing_dependencies inferred declared
                \/ x ∈ unused_dependencies inferred declared ->
                normalize_dist_name x = x).
Proof.
  intros Hload inferred.
  assert (forall x, x ∈ inferred -> normalize_dist_name x = x) as Hinf.
  { intros x (m & _ & Hx)%elem_of_infer_dependencies.
    by eapply contribution_normalized. }
  assert (forall x, x ∈ declared -> normalize_dist_name x = x) as Hdecl.
  { rewrite (load_declared_dependencies_sets _ _ _ _ Hload).
    intros x (dep & -> & _)%elem_of_list_to_set%list_elem_of_fmap.
    apply normalize_idemp. }
  split_and!; [done|done|].
  unfold missing_dependencies, unused_dependencies.
  intros x [[? _]%elem_of_difference|[? _]%elem_of_difference]; eauto.
Qed.

Lemma dependency_sets_hold_normalized_names_witness :
  let tomllib_loads := fun _ : string =>
    Some [("project",
           Toml.Table [("name", Toml.Str "sample");
                       ("dependencies",
                        Toml.Array [Toml.Str "Requests>=2.0"; Toml.Scalar true;
                                    Toml.Str "Unused_Pkg"])])] in
  load_declared_dependencies tomllib_loads (Some EmptyString)
  = Some ({[ "requests"; "unused-pkg" ]}, ["Requests>=2.0"; "Unused_Pkg"])
  /\ forall x, x ∈ ({[ "requests"; "unused-pkg" ]} : gset string) ->
               normalize_dist_name x = x.
Proof.
  intros tomllib_loads.
  assert (load_declared_dependencies tomllib_loads (Some EmptyString)
          = Some ({[ "requests"; "unused-pkg" ]}, ["Requests>=2.0"; "Unused_Pkg"]))
    as Hload by (vm_compute; reflexivity).
  split; [exact Hload|].
  exact (proj1 (proj2 (dependency_sets_hold_normalized_names tomllib_loads
                         {[ "yaml" ]} ∅ ∅ ∅ None (Some EmptyString) _ _ Hload))).
Defined.

(** ** Source scanner *)

(** C5.  When the extraction returns, the extracted set holds exactly:
    for each alias of a plain import anywhere in the tree, the first
    dotted segment of its name in lower case; and for each from-import of
    level 0 with a module, the first segment of the module in lower case.
    A relative import (level other than 0) adds nothing: a tree whose
    import nodes are all relative gives the empty set.  The first segment
    is the text before the first dot: a name [head] or [head.tail] with a
    dotless [head] contributes the lowercased [head].  Lowercasing keeps
    the length and turns the letters A to Z into a to z, leaving the other
    characters below U+0080 as they are. *)
Theorem extracted_imports_are_first_segments
    (ast_parse : string -> Ast.parse_result) (source : string)
    (found : gset string) :
  extract_imports_from_source ast_parse source = Some found ->
  (forall x,
      x ∈ found
      <-> exists tree,
            ast_parse source = Ast.Parsed tree
            /\ ((exists names alias,
                   Ast.Import names ∈ Ast.walk tree /\ alias ∈ names
                   /\ x = Text.lower (Text.first_segment (Ast.name alias)))
                \/ (exists module names,
                      Ast.ImportFrom (Some module) names 0 ∈ Ast.walk tree
                      /\ module <> EmptyString
                      /\ x = Text.lower (Text.first_segment module))))
  /\ (forall tree,
        ast_parse source = Ast.Parsed tree ->
        (forall node, node ∈ Ast.walk tree ->
           match node with
           | Ast.Import _ => False
           | Ast.ImportFrom _ _ level => level <> 0%nat
           | Ast.Other _ => True
           end) ->
        found = ∅)
  /\ (forall tree names alias head tail,
        ast_parse source = Ast.Parsed tree ->
        Ast.Import names ∈ Ast.walk tree -> alias ∈ names ->
        (forall i, String.get i head <> Some "."%char) ->
        Ast.name alias = head \/ Ast.name alias = head +:+ "." +:+ tail ->
        Text.lower head ∈ found)
  /\ (forall tree names module head tail,
        ast_parse source = Ast.Parsed tree ->
        Ast.ImportFrom (Some module) names 0 ∈ Ast.walk tree ->
        module <> EmptyString ->
        (forall i, String.get i head <> Some "."%char) ->
        module = head \/ module = head +:+ "." +:+ tail ->
        Text.lower head ∈ found)
  /\ (forall head,
        String.length (Text.lower head) = String.length head
        /\ forall i c,
             String.get i head = Some c -> (Text.code c < 128)%N ->
             String.get i (Text.lower head)
             = Some (if (65 <=? Text.code c)%N && (Text.code c <=? 90)%N
                     then ascii_of_N (Text.code c + 32) else c)).
Proof.
  intros Hfound.
  assert (forall x,
      x ∈ found
      <-> exists tree,
            ast_parse source = Ast.Parsed tree
            /\ ((exists names alias,
                   Ast.Import names ∈ Ast.walk tree /\ alias ∈ names
                   /\ x = Text.lower (Text.first_segment (Ast.name alias)))
                \/ (exists module names,
                      Ast.ImportFrom (Some module) names 0 ∈ Ast.walk tree
                      /\ module <> EmptyString
                      /\ x = Text.lower (Text.first_segment module)))) as Hmem.
  { intros x. unfold extract_imports_from_source in Hfound.
    destruct (ast_parse source) as [tree| |]; [| |done]; injection Hfound as <-.
    - rewrite elem_of_foldl_visit_node. split.
      + intros [?%not_elem_of_empty|(node & Hnode & Hx)]; [done|].
        exists tree. split; [done|].
        apply elem_of_visit_node in Hx
          as [?%not_elem_of_empty|[(names & alias & -> & Hin & ->)
                                  |(module & names & -> & Hne & ->)]]; [done| |].
        * left. by exists names, alias.
        * right. by exists module, names.
      + intros (tree' & [= <-] & [(names & alias & Hnode & Hin & ->)
                                 |(module & names & Hnode & Hne & ->)]).
        * right. exists (Ast.Import names). split; [done|].
          apply elem_of_visit_node. right; left. by exists names, alias.
        * right. exists (Ast.ImportFrom (Some module) names 0). split; [done|].
          apply elem_of_visit_node. right; right. by exists module, names.
    - split; [by intros ?%not_elem_of_empty|]. by intros (tree & [=] & _). }
  split_and!.
  - exact Hmem.
  - intros tree Htree Hrelative. apply set_eq. intros x. split.
    + intros (tree' & Heq & Hfrom)%Hmem. rewrite Htree in Heq.
      injection Heq as <-.
      destruct Hfrom as [(names & alias & Hnode & _)|(module & names & Hnode & _)];
        apply Hrelative in Hnode; done.
    + by intros ?%not_elem_of_empty.
  - intros tree names alias head tail Htree Hnode Halias Hdotless Hname.
    apply Hmem. exists tree. split; [done|]. left. exists names, alias.
    split_and!; [done|done|]. f_equal.
    destruct Hname as [->| ->]; symmetry;
      [by apply first_segment_dotless|by apply first_segment_head].
  - intros tree names module head tail Htree Hnode Hmodule Hdotless Hname.
    apply Hmem. exists tree. split; [done|]. right. exists module, names.
    split_and!; [done|done|]. f_equal.
    destruct Hname as [->| ->]; symmetry;
      [by apply first_segment_dotless|by apply first_segment_head].
  - intros head. split; [apply length_lower|].
    intros i c Hget Hascii. rewrite get_lower_char, Hget. simpl. f_equal.
    by apply lower_char_ascii.
Qed.

Lemma extracted_imports_are_first_segments_witness :
  extract_imports_from_source LineParser.parse
    (LineParser.text ["import os"; "import Requests.sessions"; "from Click.utils";
                      "from .local"])
  = Some {[ "os"; "requests"; "click" ]}
  /\ forall x,
       x ∈ ({[ "os"; "requests"; "click" ]} : gset string)
       <-> exists tree,
             LineParser.parse
               (LineParser.text ["import os"; "import Requests.sessions";
                                 "from Click.utils"; "from .local"])
             = Ast.Parsed tree
             /\ ((exists names alias,
                    Ast.Import names ∈ Ast.walk tree /\ alias ∈ names
                    /\ x = Text.lower (Text.first_segment (Ast.name alias)))
                 \/ (exists module names,
                       Ast.ImportFrom (Some module) names 0 ∈ Ast.walk tree
                       /\ module <> EmptyString
                       /\ x = Text.lower (Text.first_segment module))).
Proof.
  assert (extract_imports_from_source LineParser.parse
            (LineParser.text ["import os"; "import Requests.sessions";
                              "from Click.utils"; "from .local"])
          = Some {[ "os"; "requests"; "click" ]}) as Hfound
    by (vm_compute; reflexivity).
  split; [exact Hfound|].
  exact (proj1 (extracted_imports_are_first_segments _ _ _ Hfound)).
Defined.

(** C6: the scan is not protected against every unparsable file.  A file
    whose parse raises [SyntaxError] adds nothing and the scan goes on, but
    a file whose parse raises another exception (here the [ValueError] of
    CPython 3.11 for a NUL character) ends the scan with that exception. *)
Lemma scan_aborts_on_other_parse_errors :
  let nul := String (ascii_of_N 0) EmptyString in
  let app := Fs.File "app.py" (Some (LineParser.text ["import os"])) in
  LineParser.parse311 nul = Ast.Raises
  /\ collect_imports LineParser.parse311
       (Fs.Dir "project" [app; Fs.File "bad.py" (Some nul)]) ∅
     = None
  /\ collect_imports LineParser.parse311
       (Fs.Dir "project"
          [app; Fs.File "broken.py" (Some (LineParser.text ["def broken("]))]) ∅
     = Some ({[ "os" ]}, 2%nat).
Proof. split_and!; vm_compute; reflexivity. Qed.

(** ** Sync: the manifest file *)

Section SyncFile.

Context {document : Type}.
Context (tomlkit_parse : string -> option document).
Context (tomlkit_dumps : document -> string).
Context (has_project : document -> bool).
Context (add_project : document -> document).
Context (project_dependencies : document -> option (list Toml.value)).
Context (set_project_dependencies : document -> list string -> document).

Local Abbreviation sync :=
  (sync_project_dependencies tomlkit_parse tomlkit_dumps has_project add_project
     project_dependencies set_project_dependencies).

(** C8.  When the synced list equals the current list, the sync returns
    with [changed] and [wrote] both false and leaves the manifest file as
    it was, with the write flag set or not and whatever would happen to a
    write. *)
Theorem unchanged_list_is_never_written
    (source_text : string) (parsed : document) (items : list Toml.value)
    (inferred_dependencies : gset string) (write : bool) (fault : write_fault) :
  tomlkit_parse source_text = Some parsed ->
  project_dependencies (if has_project parsed then parsed else add_project parsed)
  = Some items ->
  compute_synced_dependencies (Toml.strings items) inferred_dependencies
  = Toml.strings items ->
  sync (Some source_text) inferred_dependencies write fault
  = (Some source_text,
     Some (mkSyncResult false false (Toml.strings items) (Toml.strings items))).
Proof.
  intros Hparse Hdeps Hsame. unfold sync_project_dependencies.
  rewrite Hparse, Hdeps, Hsame.
  rewrite bool_decide_false by (by intros []). done.
Qed.


End SyncFile.

Lemma unchanged_list_is_never_written_witness :
  let source_text := "click" +:+ LineEditor.newline +:+ "requests>=2.0"
                     +:+ LineEditor.newline in
  let inferred : gset string := {[ "click"; "requests" ]} in
  LineEditor.parse source_text = Some ["click"; "requests>=2.0"]
  /\ compute_synced_dependencies
       (Toml.strings (Toml.Str <$> ["click"; "requests>=2.0"])) inferred
     = Toml.strings (Toml.Str <$> ["click"; "requests>=2.0"])
  /\ LineEditor.sync (Some source_text) inferred true NoFault
     = (Some source_text,
        Some (mkSyncResult false false ["click"; "requests>=2.0"]
                           ["click"; "requests>=2.0"])).
Proof.
  intros source_text inferred.
  assert (LineEditor.parse source_text = Some ["click"; "requests>=2.0"]) as Hparse
    by reflexivity.
  assert (compute_synced_dependencies
            (Toml.strings (Toml.Str <$> ["click"; "requests>=2.0"])) inferred
          = Toml.strings (Toml.Str <$> ["click"; "requests>=2.0"])) as Hsame
    by (vm_compute; reflexivity).
  split_and!; [exact Hparse|exact Hsame|].
  exact (unchanged_list_is_never_written
           LineEditor.parse LineEditor.dumps (fun _ => true) (fun doc => doc)
           (fun doc => Some (Toml.Str <$> doc)) (fun _ deps => deps)
           source_text ["click"; "requests>=2.0"]
           (Toml.Str <$> ["click"; "requests>=2.0"]) inferred true NoFault
           Hparse eq_refl Hsame).
Defined.



(** * Worked examples

    The examples of the specification and the cases of [tests/test_core.py],
    run on the definitions above. *)

Section Examples.

Example normalization_collapses :
  normalize_dist_name "My_Package.Name" = "my-package-name"
  /\ normalize_dist_name "my-package-name" = "my-package-name".
Proof. split; reflexivity. Qed.

Example requirement_names :
  parse_requirement_name "requests>=2.0" = "requests"
  /\ parse_requirement_name "  click [extra] " = "click"
  /\ parse_requirement_name " -e . " = "-e .".
Proof. repeat split; reflexivity. Qed.

Example extract_handles_import_and_from :
  extract_imports_from_source LineParser.parse
    (LineParser.text ["import os"; "import requests.sessions"; "from click";
                      "from pkg.sub"; "from .local"])
  = Some {[ "os"; "requests"; "click"; "pkg" ]}.
Proof. vm_compute. reflexivity. Qed.

Example extract_tolerates_syntax_error :
  extract_imports_from_source LineParser.parse
    (LineParser.text ["import os"; "def broken("]) = Some ∅.
Proof. vm_compute. reflexivity. Qed.

Example scan_of_a_project :
  collect_imports LineParser.parse
    (Fs.Dir "project"
       [Fs.File "app.py" (Some (LineParser.text ["import os"; "import Requests"]));
        Fs.File "broken.py"
          (Some (LineParser.text ["import click"; "def broken("]));
        Fs.File "notes.txt" None;
        Fs.Dir ".venv" [Fs.File "site.py" (Some (LineParser.text ["import pip"]))];
        Fs.Dir "pkg"
          [Fs.File "__init__.py" (Some EmptyString);
           Fs.Dir "build"
             [Fs.File "gen.py" (Some (LineParser.text ["import setuptools"]))];
           Fs.File "mod.py"
             (Some (LineParser.text ["from yaml.nodes"; "from .sibling"]))]])
    {[ ".venv"; "build" ]}
  = Some ({[ "os"; "requests"; "yaml" ]}, 4%nat).
Proof. vm_compute. reflexivity. Qed.

Example analysis_of_the_test_project :
  let inferred :=
    infer_dependencies {[ "os"; "requests"; "click"; "localmod" ]}
      {[ "requests" := ["requests"]; "click" := ["click"];
         "localmod" := ["localmod"] ]}
      {[ "localmod" ]} {[ "os" ]} None in
  let declared : gset string := {[ "requests"; "unusedpkg" ]} in
  inferred = {[ "requests"; "click" ]}
  /\ missing_dependencies inferred declared = {[ "click" ]}
  /\ unused_dependencies inferred declared = {[ "unusedpkg" ]}.
Proof. split_and!; vm_compute; reflexivity. Qed.

Example identity_fallback :
  infer_dependencies {[ "os"; "requests"; "click"; "pkg" ]}
    {[ "requests" := ["requests"]; "click" := ["click"] ]} ∅ {[ "os" ]} None
  = {[ "requests"; "click"; "pkg" ]}.
Proof. vm_compute. reflexivity. Qed.

Example synced_keeps_version_qualifier :
  compute_synced_dependencies ["requests>=2.0"] {[ "requests" ]} = ["requests>=2.0"]
  /\ compute_synced_dependencies ["requests>=2.0"; "unusedpkg"]
       {[ "requests"; "click" ]}
     = ["click"; "requests>=2.0"]
  /\ compute_synced_dependencies ["Requests[socks]>=2"; "requests==1.0"]
       {[ "requests" ]}
     = ["Requests[socks]>=2"].
Proof. split_and!; vm_compute; reflexivity. Qed.

Example sync_dry_run_and_write :
  let prior := LineParser.text ["requests>=2.0"; "unusedpkg"] in
  let inferred : gset string := {[ "requests"; "click" ]} in
  LineEditor.sync (Some prior) inferred false NoFault
  = (Some prior,
     Some (mkSyncResult true false ["requests>=2.0"; "unusedpkg"]
                        ["click"; "requests>=2.0"]))
  /\ LineEditor.sync (Some prior) inferred true NoFault
     = (Some (LineParser.text ["click"; "requests>=2.0"]),
        Some (mkSyncResult true true ["requests>=2.0"; "unusedpkg"]
                           ["click"; "requests>=2.0"])).
Proof. split; vm_compute; reflexivity. Qed.

End Examples.

(** * Further properties

    Properties of the functions around the ones above: the text helpers,
    the planner, the resolver, the scanner, the local module detector, the
    manifest reader, the command line and the analysis. *)

(** ** Text helpers *)

Section TextFacts.

Lemma get_lower i s : String.get i (Text.lower s) = Text.lower_char <$> String.get i s.
Proof.
  revert i. induction s as [|c s IH]; intros [|i]; simpl; by try apply IH.
Qed.

Lemma is_upper_lower_char c : Text.is_upper (Text.lower_char c) = false.
Proof. by destruct c as [[] [] [] [] [] [] [] []]. Qed.

Lemma is_sep_hyphen : Text.is_sep "-" = true.
Proof. reflexivity. Qed.

Lemma sub_runs_head_in_run s c :
  String.get 0 (Text.sub_runs true s) = Some c -> Text.is_sep c = false.
Proof.
  induction s as [|c0 s IH]; simpl; [done|].
  destruct (Text.is_sep c0) eqn:Hc0; [done|]. simpl. by intros [= <-].
Qed.

Lemma sub_runs_separators b s i c :
  String.get i (Text.sub_runs b s) = Some c -> Text.is_sep c = true ->
  c = "-"%char /\ String.get (S i) (Text.sub_runs b s) <> Some "-"%char.
Proof.
  revert b i. induction s as [|c0 s IH]; intros b i; simpl; [done|].
  destruct (Text.is_sep c0) eqn:Hc0.
  - destruct b; [apply IH|].
    destruct i as [|i]; simpl.
    + intros [= <-] _. split; [done|].
      intros Hnext%sub_runs_head_in_run. by rewrite is_sep_hyphen in Hnext.
    + apply IH.
  - destruct i as [|i]; simpl.
    + intros [= <-] Hsep. by rewrite Hc0 in Hsep.
    + apply IH.
Qed.

End TextFacts.

(** X1.  Normalizing is idempotent: a normalized name is its own
    normalized form. *)
Theorem normalize_dist_name_idempotent (name : string) :
  normalize_dist_name (normalize_dist_name name) = normalize_dist_name name.
Proof. apply normalize_idemp. Qed.

(** X2.  A normalized name has no capital letter, its only separator
    character is the hyphen, and no hyphen is followed by another one. *)
Theorem normalize_dist_name_shape (name : string) (i : nat) (c : ascii) :
  String.get i (normalize_dist_name name) = Some c ->
  Text.is_upper c = false
  /\ (Text.is_sep c = true ->
      c = "-"%char
      /\ String.get (S i) (normalize_dist_name name) <> Some "-"%char).
Proof.
  unfold normalize_dist_name. rewrite !get_lower.
  destruct (String.get i (Text.sub_runs false name)) as [c'|] eqn:Hget; [|done].
  simpl. intros [= <-]. split; [apply is_upper_lower_char|].
  rewrite is_sep_lower_char. intros Hsep.
  destruct (sub_runs_separators _ _ _ _ Hget Hsep) as [-> Hnext].
  split; [done|].
  destruct (String.get (S i) (Text.sub_runs false name)) as [c''|] eqn:Hget';
    [|done].
  simpl. intros [= Hc''].
  assert (Text.is_sep c'' = true) as Hsep''
    by (by rewrite <-is_sep_lower_char, Hc'').
  destruct (sub_runs_separators _ _ _ _ Hget' Hsep'') as [-> _]. by apply Hnext.
Qed.

Lemma normalize_dist_name_shape_witness :
  String.get 2 (normalize_dist_name "My_.-Package") = Some "-"%char
  /\ Text.is_upper "-" = false
  /\ (Text.is_sep "-" = true ->
      "-"%char = "-"%char
      /\ String.get 3 (normalize_dist_name "My_.-Package") <> Some "-"%char).
Proof.
  split; [reflexivity|].
  exact (normalize_dist_name_shape "My_.-Package" 2 "-" eq_refl).
Defined.

(** X3.  Parsing a requirement is idempotent and ignores leading white
    space. *)
Theorem parse_requirement_name_idempotent (requirement : string) :
  parse_requirement_name (parse_requirement_name requirement)
  = parse_requirement_name requirement
  /\ parse_requirement_name (Text.lstrip requirement)
     = parse_requirement_name requirement.
Proof.
  split; [|apply parse_requirement_name_lstrip].
  rewrite <-(parse_requirement_name_lstrip requirement).
  apply parse_requirement_name_unpadded, lstrip_idemp.
Qed.

(** X4.  A requirement made of white space, a name that starts with a
    letter or digit and goes on with name characters, and a rest that is
    empty or starts with another character (a version operator, a bracket,
    a blank) parses to the name. *)
Theorem parse_requirement_name_drops_qualifier
    (space : string) (c : ascii) (name rest : string) :
  Forall (fun d => Text.is_space d = true) (list_ascii_of_string space) ->
  Text.is_alnum c = true ->
  Forall (fun d => Text.is_name_char d = true) (list_ascii_of_string name) ->
  match rest with
  | EmptyString => True
  | String d _ => Text.is_name_char d = false
  end ->
  parse_requirement_name (space +:+ String c name +:+ rest) = String c name.
Proof.
  intros Hspace Hc Hname Hrest. by apply parse_requirement_name_qualified.
Qed.

Lemma parse_requirement_name_drops_qualifier_witness :
  Forall (fun d => Text.is_space d = true) (list_ascii_of_string "  ")
  /\ Text.is_alnum "r" = true
  /\ Forall (fun d => Text.is_name_char d = true) (list_ascii_of_string "equests")
  /\ parse_requirement_name ("  " +:+ "requests" +:+ ">=2.0") = "requests".
Proof.
  assert (Forall (fun d => Text.is_space d = true) (list_ascii_of_string "  "))
    as Hspace by (repeat constructor).
  assert (Forall (fun d => Text.is_name_char d = true)
                 (list_ascii_of_string "equests"))
    as Hname by (repeat constructor).
  split_and!; [exact Hspace|reflexivity|exact Hname|].
  exact (parse_requirement_name_drops_qualifier "  " "r" "equests" ">=2.0"
           Hspace eq_refl Hname eq_refl).
Defined.

(** ** Sync planner *)

Section PlannerFacts.

Import SyncSpec.

Lemma elem_of_compute_synced current inferred d :
  d ∈ compute_synced_dependencies current inferred
  <-> exists n, n ∈ inferred /\ d = emitted current n.
Proof.
  rewrite compute_synced_emitted, list_elem_of_fmap.
  split; intros (n & Hn & Hd); exists n; by rewrite ?elem_of_sorted in *.
Qed.

Lemma take_while_all p s :
  Forall (fun d => p d = true) (list_ascii_of_string s) -> Text.take_while p s = s.
Proof.
  induction s as [|d s IH]; simpl; [done|].
  intros [Hd Hs]%Forall_cons. by rewrite Hd, IH.
Qed.

Lemma fmap_NoDup_inj {A B} (f : A -> B) (l : list A) x y :
  NoDup (f <$> l) -> x ∈ l -> y ∈ l -> f x = f y -> x = y.
Proof.
  induction l as [|z l IH]; csimpl; [by intros _ ?%elem_of_nil|].
  intros [Hz Hl]%NoDup_cons [->|Hx]%elem_of_cons [->|Hy]%elem_of_cons Heq;
    [done| | |by apply IH].
  - destruct Hz. rewrite Heq. apply list_elem_of_fmap. by exists y.
  - destruct Hz. rewrite <-Heq. apply list_elem_of_fmap. by exists x.
Qed.

(** With distinct declared names, a name is answered by the one
    declaration that has it. *)
Lemma first_literal_unique current n d :
  NoDup (declared_name <$> current) -> d ∈ current -> declared_name d = n ->
  first_literal current n = Some d.
Proof.
  intros Hnodup Hd Hn. unfold first_literal.
  destruct (list_find _ current) as [[i x]|] eqn:Hf; simpl.
  - apply list_find_Some in Hf as (Hi & Hx & _). f_equal.
    eapply fmap_NoDup_inj; [done|by eapply list_elem_of_lookup_2|done|].
    by rewrite Hx, Hn.
  - apply list_find_None in Hf. rewrite Forall_forall in Hf. by destruct (Hf d).
Qed.

Lemma first_literal_None current n :
  first_literal current n = None
  <-> Forall (fun d => declared_name d <> n) current.
Proof.
  unfold first_literal.
  destruct (list_find _ current) as [[i x]|] eqn:Hf; simpl.
  - split; [done|]. intros Hall. apply list_find_Some in Hf as (Hi & Hx & _).
    rewrite Forall_forall in Hall. destruct (Hall x); [|done].
    by eapply list_elem_of_lookup_2.
  - split; [|done]. intros _. by apply list_find_None in Hf.
Qed.

End PlannerFacts.

(** X5.  The synced list has one entry per inferred name. *)
Theorem synced_list_length (current : list string) (inferred : gset string) :
  length (compute_synced_dependencies current inferred) = size inferred.
Proof.
  rewrite compute_synced_emitted, length_fmap.
  by rewrite (Permutation_length (sorted_Permutation inferred)).
Qed.

(** X6.  Every entry of the synced list is an inferred name or a current
    declaration whose name is inferred: a declaration of a name that is
    not inferred is dropped, unless its text is itself an inferred name. *)
Theorem synced_list_members
    (current : list string) (inferred : gset string) (d : string) :
  d ∈ compute_synced_dependencies current inferred ->
  d ∈ inferred \/ (d ∈ current /\ SyncSpec.declared_name d ∈ inferred).
Proof.
  intros (n & Hn & ->)%elem_of_compute_synced.
  destruct (emitted_first_or_bare current n)
    as [(pre & post & Hcur & Hname & _)|[_ ->]]; [right|by left].
  split; [|by rewrite Hname].
  rewrite Hcur at 2. apply elem_of_app. right. apply list_elem_of_here.
Qed.

Lemma synced_list_members_witness :
  "requests>=2.0" ∈ compute_synced_dependencies ["requests>=2.0"; "unusedpkg"]
                      {[ "click"; "requests" ]}
  /\ ("requests>=2.0" ∈ ({[ "click"; "requests" ]} : gset string)
      \/ ("requests>=2.0" ∈ ["requests>=2.0"; "unusedpkg"]
          /\ SyncSpec.declared_name "requests>=2.0"
               ∈ ({[ "click"; "requests" ]} : gset string))).
Proof.
  assert ("requests>=2.0" ∈ compute_synced_dependencies
            ["requests>=2.0"; "unusedpkg"] {[ "click"; "requests" ]}) as Hin.
  { replace (compute_synced_dependencies _ _) with ["click"; "requests>=2.0"]
      by (vm_compute; reflexivity).
    apply list_elem_of_further, list_elem_of_here. }
  split; [exact Hin|].
  exact (synced_list_members _ _ _ Hin).
Defined.

(** X7.  When every inferred name is its own declared name, the
    declarations of the synced list name exactly the inferred set: reading
    the synced list back leaves nothing missing and nothing unused. *)
Theorem synced_list_declares_inferred
    (current : list string) (inferred : gset string) :
  (forall n, n ∈ inferred -> SyncSpec.declared_name n = n) ->
  let declared : gset string :=
    list_to_set ((fun dep => normalize_dist_name (parse_requirement_name dep))
                   <$> compute_synced_dependencies current inferred) in
  declared = inferred
  /\ missing_dependencies inferred declared = ∅
  /\ unused_dependencies inferred declared = ∅.
Proof.
  intros Hown declared.
  assert (declared = inferred) as ->.
  { apply set_eq. intros x. unfold declared.
    rewrite elem_of_list_to_set, list_elem_of_fmap. split.
    - intros (d & -> & (n & Hn & ->)%elem_of_compute_synced).
      fold (SyncSpec.declared_name (SyncSpec.emitted current n)).
      destruct (emitted_cases current n) as [->| ->]; [done|].
      by rewrite (Hown n Hn).
    - intros Hx. exists (SyncSpec.emitted current x). split.
      + fold (SyncSpec.declared_name (SyncSpec.emitted current x)).
        destruct (emitted_cases current x) as [->| ->]; [done|].
        by rewrite (Hown x Hx).
      + apply elem_of_compute_synced. by exists x. }
  unfold missing_dependencies, unused_dependencies.
  split_and!; [done| |]; apply set_eq; intros x;
    rewrite elem_of_difference; split; try (by intros ?%not_elem_of_empty);
    by intros [? ?].
Qed.

Lemma synced_list_declares_inferred_witness :
  (forall n, n ∈ ({[ "click"; "requests" ]} : gset string) ->
             SyncSpec.declared_name n = n)
  /\ (list_to_set ((fun dep => normalize_dist_name (parse_requirement_name dep))
                     <$> compute_synced_dependencies ["requests>=2.0"; "unusedpkg"]
                           {[ "click"; "requests" ]}) : gset string)
     = {[ "click"; "requests" ]}.
Proof.
  assert (forall n, n ∈ ({[ "click"; "requests" ]} : gset string) ->
                    SyncSpec.declared_name n = n) as Hown.
  { intros n [->%elem_of_singleton| ->%elem_of_singleton]%elem_of_union;
      reflexivity. }
  split; [exact Hown|].
  exact (proj1 (synced_list_declares_inferred
                  ["requests>=2.0"; "unusedpkg"] {[ "click"; "requests" ]} Hown)).
Defined.

(** X8.  A normalized name that starts with a letter or digit and goes on
    with name characters only is its own declared name. *)
Theorem normalized_token_is_own_name (c : ascii) (rest : string) :
  normalize_dist_name (String c rest) = String c rest ->
  Text.is_alnum c = true ->
  Forall (fun d => Text.is_name_char d = true) (list_ascii_of_string rest) ->
  SyncSpec.declared_name (String c rest) = String c rest.
Proof.
  intros Hnorm Hc Hrest. unfold SyncSpec.declared_name, parse_requirement_name.
  simpl. by rewrite (alnum_not_space c Hc), Hc, (take_while_all _ _ Hrest).
Qed.

Lemma normalized_token_is_own_name_witness :
  normalize_dist_name "my-package-name" = "my-package-name"
  /\ Text.is_alnum "m" = true
  /\ Forall (fun d => Text.is_name_char d = true)
            (list_ascii_of_string "y-package-name")
  /\ SyncSpec.declared_name "my-package-name" = "my-package-name".
Proof.
  assert (Forall (fun d => Text.is_name_char d = true)
                 (list_ascii_of_string "y-package-name"))
    as Hrest by (repeat constructor).
  split_and!; [reflexivity|reflexivity|exact Hrest|].
  exact (normalized_token_is_own_name "m" "y-package-name" eq_refl eq_refl Hrest).
Defined.

(** X9.  When the current declarations have distinct names, their order
    does not matter: a permutation of the current list gives the same
    synced list. *)
Theorem synced_list_ignores_order
    (current current' : list string) (inferred : gset string) :
  current ≡ₚ current' ->
  NoDup (SyncSpec.declared_name <$> current) ->
  compute_synced_dependencies current inferred
  = compute_synced_dependencies current' inferred.
Proof.
  intros Hperm Hnodup. rewrite !compute_synced_emitted.
  apply list_fmap_ext. intros _ n _. unfold SyncSpec.emitted. f_equal.
  assert (NoDup (SyncSpec.declared_name <$> current')) as Hnodup'
    by (by rewrite <-Hperm).
  destruct (SyncSpec.first_literal current n) as [d|] eqn:Hf.
  - apply first_literal_Some in Hf as [Hd Hn]. symmetry.
    apply first_literal_unique; [done| |done]. by rewrite <-Hperm.
  - symmetry. apply first_literal_None. rewrite <-Hperm.
    by apply first_literal_None.
Qed.

Lemma synced_list_ignores_order_witness :
  ["requests>=2.0"; "click==8"] ≡ₚ ["click==8"; "requests>=2.0"]
  /\ NoDup (SyncSpec.declared_name <$> ["requests>=2.0"; "click==8"])
  /\ compute_synced_dependencies ["requests>=2.0"; "click==8"] {[ "click"; "requests" ]}
     = compute_synced_dependencies ["click==8"; "requests>=2.0"] {[ "click"; "requests" ]}.
Proof.
  assert (["requests>=2.0"; "click==8"] ≡ₚ ["click==8"; "requests>=2.0"]) as Hperm
    by apply Permutation_swap.
  assert (NoDup (SyncSpec.declared_name <$> ["requests>=2.0"; "click==8"]))
    as Hnodup.
  { apply (NoDup_cons_2 _ _). 
    - intros Hin%list_elem_of_singleton. discriminate Hin.
    - apply NoDup_singleton. }
  split_and!; [exact Hperm|exact Hnodup|].
  exact (synced_list_ignores_order _ _ {[ "click"; "requests" ]} Hperm Hnodup).
Defined.

(** ** Distribution resolver *)

Section ResolverFacts.

Context (distribution_map : gmap string (list string)).
Context (local_modules stdlib_modules : gset string).
Context (explicit_map : option (gmap string string)).

Local Abbreviation infer imports :=
  (infer_dependencies imports distribution_map local_modules stdlib_modules
     explicit_map).

Lemma infer_dependencies_union A B : infer (A ∪ B) = infer A ∪ infer B.
Proof.
  apply set_eq. intros x.
  rewrite elem_of_union, !elem_of_infer_dependencies. split.
  - intros (m & [Hm|Hm]%elem_of_union & Hx); [left|right]; by exists m.
  - intros [(m & Hm & Hx)|(m & Hm & Hx)]; exists m;
      (split; [apply elem_of_union; by (left + right)|done]).
Qed.

Lemma infer_dependencies_empty : infer ∅ = ∅.
Proof.
  apply set_eq. intros x. rewrite elem_of_infer_dependencies.
  split; [by intros (m & ?%not_elem_of_empty & _)|by intros ?%not_elem_of_empty].
Qed.

Lemma size_contribution module :
  size (contribution distribution_map local_modules stdlib_modules explicit_map
          module) <= 1.
Proof.
  destruct (decide (module ∈ stdlib_modules ∨ module ∈ local_modules)) as [Hex|Hin].
  - rewrite contribution_excluded, size_empty by done. lia.
  - rewrite contribution_singleton, size_singleton; [lia| |];
      intros ?; apply Hin; by (left + right).
Qed.

End ResolverFacts.

(** X10.  Inference works import by import: the inferred set of a union of
    import sets is the union of the inferred sets, so adding imports never
    removes an inferred name. *)
Theorem infer_dependencies_distributes
    (A B : gset string) (distribution_map : gmap string (list string))
    (local_modules stdlib_modules : gset string)
    (explicit_map : option (gmap string string)) :
  infer_dependencies (A ∪ B) distribution_map local_modules stdlib_modules
    explicit_map
  = infer_dependencies A distribution_map local_modules stdlib_modules explicit_map
    ∪ infer_dependencies B distribution_map local_modules stdlib_modules
        explicit_map
  /\ (A ⊆ B ->
      infer_dependencies A distribution_map local_modules stdlib_modules
        explicit_map
      ⊆ infer_dependencies B distribution_map local_modules stdlib_modules
          explicit_map).
Proof.
  split; [apply infer_dependencies_union|].
  intros Hsub x (m & Hm & Hx)%elem_of_infer_dependencies.
  apply elem_of_infer_dependencies. exists m. split; [by apply Hsub|done].
Qed.

(** X11.  A non-empty override decides the name of an import that is not
    excluded, whatever the index holds for it. *)
Theorem explicit_override_wins
    (distribution_map : gmap string (list string))
    (local_modules stdlib_modules : gset string)
    (explicit_map : gmap string string) (module mapped_dep : string) :
  explicit_map !! module = Some mapped_dep -> mapped_dep <> EmptyString ->
  module ∉ stdlib_modules -> module ∉ local_modules ->
  infer_dependencies {[ module ]} distribution_map local_modules stdlib_modules
    (Some explicit_map)
  = {[ normalize_dist_name mapped_dep ]}.
Proof.
  intros Hentry Hne Hstd Hloc.
  rewrite infer_dependencies_singleton, contribution_singleton by done.
  simpl. rewrite Hentry. by destruct mapped_dep.
Qed.

Lemma explicit_override_wins_witness :
  ({[ "yaml" := "PyYAML" ]} : gmap string string) !! "yaml" = Some "PyYAML"
  /\ "PyYAML" <> EmptyString
  /\ ("yaml" ∉ ({[ "os" ]} : gset string)) /\ ("yaml" ∉ (∅ : gset string))
  /\ infer_dependencies {[ "yaml" ]} {[ "yaml" := ["other"] ]} ∅ {[ "os" ]}
       (Some {[ "yaml" := "PyYAML" ]})
     = {[ normalize_dist_name "PyYAML" ]}.
Proof.
  assert (({[ "yaml" := "PyYAML" ]} : gmap string string) !! "yaml" = Some "PyYAML")
    as Hentry by apply lookup_singleton_eq.
  assert ("PyYAML" <> EmptyString) as Hne by discriminate.
  assert ("yaml" ∉ ({[ "os" ]} : gset string)) as Hstd.
  { intros Hin%elem_of_singleton. discriminate Hin. }
  assert ("yaml" ∉ (∅ : gset string)) as Hloc by apply not_elem_of_empty.
  split_and!; [exact Hentry|exact Hne|exact Hstd|exact Hloc|].
  exact (explicit_override_wins {[ "yaml" := ["other"] ]} ∅ {[ "os" ]}
           {[ "yaml" := "PyYAML" ]} "yaml" "PyYAML" Hentry Hne Hstd Hloc).
Defined.

(** Each import adds at most one name: the inferred set is never
    larger than the import set, and no import gives no dependency. *)
Theorem infer_dependencies_size
    (imports : gset string) (distribution_map : gmap string (list string))
    (local_modules stdlib_modules : gset string)
    (explicit_map : option (gmap string string)) :
  size (infer_dependencies imports distribution_map local_modules stdlib_modules
          explicit_map) <= size imports
  /\ infer_dependencies ∅ distribution_map local_modules stdlib_modules
       explicit_map = ∅.
Proof.
  split; [|apply infer_dependencies_empty].
  induction imports as [|module X Hfresh IH] using set_ind_L.
  - rewrite infer_dependencies_empty, !size_empty. lia.
  - rewrite infer_dependencies_union, infer_dependencies_singleton.
    rewrite (size_union {[ module ]} X) by (by apply disjoint_singleton_l).
    rewrite size_singleton, size_union_alt.
    pose proof (size_contribution distribution_map local_modules stdlib_modules
                  explicit_map module).
    assert (size (infer_dependencies X distribution_map local_modules
                    stdlib_modules explicit_map
                  ∖ contribution distribution_map local_modules stdlib_modules
                      explicit_map module)
            <= size (infer_dependencies X distribution_map local_modules
                       stdlib_modules explicit_map))
      by (apply subseteq_size, subseteq_difference_l; done).
    lia.
Qed.

(** X12.  The index entry of a module comes from the last reported item
    with that lowercased module name that has a non-empty distribution
    name: later items replace earlier ones, and items whose distribution
    names are all empty are passed over. *)
Theorem build_distribution_map_last_item_wins
    (raw_map : list (string * list string)) (module : string)
    (candidates : list string) :
  build_distribution_map raw_map !! module = Some candidates
  <-> exists pre module_name distributions post,
        raw_map = pre ++ (module_name, distributions) :: post
        /\ Text.lower module_name = module
        /\ normalized_candidates distributions = candidates
        /\ candidates <> []
        /\ Forall (fun item => Text.lower (fst item) = module ->
                               normalized_candidates (snd item) = [])
                  post.
Proof. apply build_distribution_map_lookup. Qed.

(** X13.  In the built index every key is in lower case and every entry is
    a non-empty list of normalized names without duplicates. *)
Theorem build_distribution_map_invariants
    (raw_map : list (string * list string)) (module : string)
    (candidates : list string) :
  build_distribution_map raw_map !! module = Some candidates ->
  Text.lower module = module
  /\ candidates <> []
  /\ NoDup candidates
  /\ Forall (fun c => normalize_dist_name c = c /\ c <> EmptyString) candidates.
Proof.
  intros (Hne & name & dists & _ & <- & ->)%build_distribution_map_entries.
  split_and!; [apply lower_idemp|done|apply NoDup_sorted|].
  apply Forall_forall. intros c Hc.
  apply normalized_candidates_spec in Hc as (dep & _ & Hdep & ->).
  split; [apply normalize_idemp|].
  destruct dep as [|d dep]; [done|]. unfold normalize_dist_name. simpl.
  by destruct (Text.is_sep d).
Qed.

Lemma build_distribution_map_invariants_witness :
  build_distribution_map [("Yaml", ["PyYAML"; EmptyString; "pyyaml"])] !! "yaml"
  = Some ["pyyaml"]
  /\ NoDup ["pyyaml"].
Proof.
  assert (build_distribution_map [("Yaml", ["PyYAML"; EmptyString; "pyyaml"])] !! "yaml"
          = Some ["pyyaml"]) as Hentry by (vm_compute; reflexivity).
  split; [exact Hentry|].
  exact (proj1 (proj2 (proj2 (build_distribution_map_invariants _ _ _ Hentry)))).
Defined.

(** ** Source scanner *)

Section TreeFacts.

Lemma entry_induction (P : Fs.entry -> Prop) :
  (forall name text, P (Fs.File name text)) ->
  (forall name entries, Forall P entries -> P (Fs.Dir name entries)) ->
  forall e, P e.
Proof.
  intros Hfile Hdir. fix IH 1. intros [name text|name entries]; [apply Hfile|].
  apply Hdir. induction entries as [|e entries IHentries]; constructor;
    [apply IH|apply IHentries].
Qed.

Lemma node_induction (P : Ast.node -> Prop) :
  (forall names, P (Ast.Import names)) ->
  (forall module names level, P (Ast.ImportFrom module names level)) ->
  (forall children, Forall P children -> P (Ast.Other children)) ->
  forall n, P n.
Proof.
  intros Himport Hfrom Hother. fix IH 1.
  intros [names|module names level|children];
    [apply Himport|apply Hfrom|].
  apply Hother. induction children as [|c children IHchildren]; constructor;
    [apply IH|apply IHchildren].
Qed.

Lemma elem_of_flat_map {A B} (f : A -> list B) (l : list A) y :
  y ∈ flat_map f l <-> exists x, x ∈ l /\ y ∈ f x.
Proof.
  rewrite list_elem_of_In, in_flat_map. split; intros (x & Hx & Hy); exists x;
    by rewrite ?list_elem_of_In in *.
Qed.

Lemma elem_of_python_files_here root entries p :
  p ∈ python_files_here root entries
  <-> exists name text,
        Fs.File name text ∈ entries /\ Text.endswith name ".py" = true
        /\ p = Fs.Path (root ++ [name]) text.
Proof.
  unfold python_files_here. rewrite elem_of_flat_map. split.
  - intros ([name text|name children] & He & Hp); [|by apply elem_of_nil in Hp].
    destruct (Text.endswith name ".py") eqn:Hpy; [|by apply elem_of_nil in Hp].
    apply list_elem_of_singleton in Hp as ->. by exists name, text.
  - intros (name & text & He & Hpy & ->). exists (Fs.File name text).
    split; [done|]. rewrite Hpy. apply list_elem_of_here.
Qed.

(** The paths found below [top], with [root] as the path of [top]. *)
Lemma elem_of_walk_python_files excluded_dirs top root p :
  p ∈ walk_python_files excluded_dirs root top
  <-> exists dirs name text,
        p = Fs.Path (root ++ dirs ++ [name]) text
        /\ located top dirs name text
        /\ Text.endswith name ".py" = true
        /\ Forall (fun d => d ∉ excluded_dirs) dirs.
Proof.
  revert root. induction top as [name text|top_name entries IH] using entry_induction;
    intros root.
  { simpl. split; [by intros ?%elem_of_nil|].
    intros (dirs & n & t & _ & Hloc & _). inversion Hloc. }
  rewrite Forall_forall in IH. simpl.
  rewrite elem_of_app, elem_of_python_files_here, elem_of_flat_map. split.
  - intros [(name & text & He & Hpy & ->)|(e & He & Hp)].
    + exists [], name, text. split_and!; [done| |done|done].
      by apply located_here.
    + destruct e as [name text|directory children]; [by apply elem_of_nil in Hp|].
      destruct (decide (directory ∈ excluded_dirs)); [by apply elem_of_nil in Hp|].
      apply (IH _ He) in Hp as (dirs & name & text & -> & Hloc & Hpy & Hdirs).
      exists (directory :: dirs), name, text. split_and!.
      * by rewrite <-app_assoc.
      * by eapply located_below.
      * done.
      * by constructor.
  - intros (dirs & name & text & -> & Hloc & Hpy & Hdirs).
    inversion Hloc as [? ? ? ? He|? ? directory children dirs' ? ? He Hbelow]; subst.
    + left. by exists name, text.
    + right. exists (Fs.Dir directory children). split; [done|].
      apply Forall_cons in Hdirs as [Hd Hdirs]. rewrite decide_False by done.
      apply (IH _ He). exists dirs', name, text. split_and!; try done.
      by rewrite <-app_assoc.
Qed.

Lemma walk_self n : n ∈ Ast.walk n.
Proof. destruct n; simpl; apply list_elem_of_here. Qed.

Lemma walk_trans t n m : n ∈ Ast.walk t -> m ∈ Ast.walk n -> m ∈ Ast.walk t.
Proof.
  induction t as [names|module names level|children IH] using node_induction; simpl.
  - by intros ->%list_elem_of_singleton.
  - by intros ->%list_elem_of_singleton.
  - rewrite Forall_forall in IH.
    intros [->|(c & Hc & Hn)%elem_of_flat_map]%elem_of_cons Hm; [done|].
    apply elem_of_cons. right. apply elem_of_flat_map. exists c.
    split; [done|]. by apply (IH c Hc).
Qed.

Lemma first_segment_no_dot s i : String.get i (Text.first_segment s) <> Some "."%char.
Proof.
  revert i. induction s as [|c s IH]; intros i; simpl; [by destruct i|].
  destruct (Text.code c =? 46)%N eqn:Hc; [by destruct i|].
  destruct i as [|i]; simpl; [|apply IH].
  intros [= ->]. discriminate Hc.
Qed.

Lemma lower_char_dot c : Text.lower_char c = "."%char -> c = "."%char.
Proof. by destruct c as [[] [] [] [] [] [] [] []]. Qed.

End TreeFacts.

(** X14.  The files of a scan are exactly the files of the project tree
    whose name ends in [.py] and that lie under no excluded directory,
    checked at every level below the project directory; the name of the
    project directory itself is not checked. *)
Theorem iter_python_files_spec
    (project_path : Fs.entry) (excluded_dirs : gset string) (p : Fs.path) :
  p ∈ iter_python_files project_path excluded_dirs
  <-> exists dirs name text,
        p = Fs.Path (dirs ++ [name]) text
        /\ located project_path dirs name text
        /\ Text.endswith name ".py" = true
        /\ Forall (fun d => d ∉ excluded_dirs) dirs.
Proof. apply (elem_of_walk_python_files excluded_dirs project_path []). Qed.

Section ScanFold.

Context (ast_parse : string -> Ast.parse_result).

Local Abbreviation step :=
  (fun (imports : option (gset string)) (file_path : Fs.path) =>
     match imports, scan_file ast_parse file_path with
     | Some imports, Some found => Some (imports ∪ found)
     | _, _ => None
     end).

Lemma foldl_scan_None files : foldl step None files = None.
Proof. induction files as [|p files IH]; simpl; [done|apply IH]. Qed.

(** The loop returns exactly when no file raises, and then with the union
    of what the files yield. *)
Lemma foldl_scan_Some files acc imports :
  foldl step (Some acc) files = Some imports
  <-> (forall p, p ∈ files -> is_Some (scan_file ast_parse p))
      /\ forall x, x ∈ imports
                   <-> x ∈ acc
                       \/ exists p found, p ∈ files
                                          /\ scan_file ast_parse p = Some found
                                          /\ x ∈ found.
Proof.
  revert acc imports. induction files as [|p files IH]; intros acc imports; simpl.
  - split.
    + intros [= <-]. split; [by intros p ?%elem_of_nil|]. intros x. split; [by left|].
      intros [?|(p & found & ?%elem_of_nil & _)]; done.
    + intros [_ Hmem]. f_equal. apply set_eq. intros x. rewrite Hmem. split; [by left|].
      intros [?|(p & found & ?%elem_of_nil & _)]; done.
  - destruct (scan_file ast_parse p) as [found|] eqn:Hscan.
    + rewrite IH. split.
      * intros [Hall Hmem]. split.
        -- intros q [->|Hq]%elem_of_cons; [by rewrite Hscan|by apply Hall].
        -- intros x. rewrite Hmem, elem_of_union. split.
           ++ intros [[?|?]|(q & f & Hq & Hf & Hx)]; [by left| |].
              ** right. exists p, found. split_and!; [apply list_elem_of_here|done|done].
              ** right. exists q, f. split_and!; [by apply list_elem_of_further|done|done].
           ++ intros [?|(q & f & [->|Hq]%elem_of_cons & Hf & Hx)]; [by left; left| |].
              ** rewrite Hscan in Hf. injection Hf as <-. by left; right.
              ** right. by exists q, f.
      * intros [Hall Hmem]. split.
        -- intros q Hq. apply Hall. by apply list_elem_of_further.
        -- intros x. rewrite Hmem, elem_of_union. split.
           ++ intros [?|(q & f & [->|Hq]%elem_of_cons & Hf & Hx)]; [by left; left| |].
              ** rewrite Hscan in Hf. injection Hf as <-. by left; right.
              ** right. by exists q, f.
           ++ intros [[?|?]|(q & f & Hq & Hf & Hx)]; [by left| |].
              ** right. exists p, found. split_and!; [apply list_elem_of_here|done|done].
              ** right. exists q, f. split_and!; [by apply list_elem_of_further|done|done].
    + rewrite foldl_scan_None. split; [done|]. intros [Hall _].
      destruct (Hall p) as [? Hsome]; [apply list_elem_of_here|].
      by rewrite Hscan in Hsome.
Qed.

(** What [collect_imports] returns. *)
Lemma collect_imports_Some project_path excluded_dirs imports count :
  collect_imports ast_parse project_path excluded_dirs = Some (imports, count)
  <-> count = length (iter_python_files project_path excluded_dirs)
      /\ (forall p, p ∈ iter_python_files project_path excluded_dirs ->
                    is_Some (scan_file ast_parse p))
      /\ forall x, x ∈ imports
                   <-> exists p found,
                         p ∈ iter_python_files project_path excluded_dirs
                         /\ scan_file ast_parse p = Some found /\ x ∈ found.
Proof.
  unfold collect_imports.
  destruct (foldl _ (Some ∅) (iter_python_files project_path excluded_dirs))
    as [collected|] eqn:Hfold.
  - apply foldl_scan_Some in Hfold as [Hall Hmem]. split.
    + intros [= <- <-]. split_and!; [done|done|]. intros x. rewrite Hmem.
      split; [by intros [?%not_elem_of_empty|?]|by right].
    + intros (-> & _ & Himports). do 2 f_equal. apply set_eq. intros x.
      rewrite Hmem, Himports. split; [by intros [?%not_elem_of_empty|?]|by right].
  - split; [done|]. intros (_ & Hall & Hmem). exfalso.
    assert (foldl step (Some ∅) (iter_python_files project_path excluded_dirs)
            = Some imports) as Hsome.
    { apply foldl_scan_Some. split; [done|]. intros x. rewrite Hmem.
      split; [by right|by intros [?%not_elem_of_empty|?]]. }
    by rewrite Hsome in Hfold.
Qed.

End ScanFold.


(** X16.  Every extracted import name is in lower case and holds no dot. *)
Theorem extracted_names_lowercase_dotless
    (ast_parse : string -> Ast.parse_result) (source x : string)
    (found : gset string) :
  extract_imports_from_source ast_parse source = Some found ->
  x ∈ found ->
  Text.lower x = x /\ forall i, String.get i x <> Some "."%char.
Proof.
  unfold extract_imports_from_source.
  destruct (ast_parse source) as [tree| |]; [| |done]; intros [= <-];
    [|by intros ?%not_elem_of_empty].
  intros [?%not_elem_of_empty|(node & _ & Hx)]%elem_of_foldl_visit_node; [done|].
  assert (exists s, x = Text.lower (Text.first_segment s)) as [s ->].
  { apply elem_of_visit_node in Hx
      as [?%not_elem_of_empty|[(names & alias & _ & _ & ->)
                              |(module & names & _ & _ & ->)]]; [done| |]; eauto. }
  split; [apply lower_idemp|]. intros i. rewrite get_lower.
  destruct (String.get i (Text.first_segment s)) as [c|] eqn:Hget; [|done].
  simpl. intros [= ->%lower_char_dot]. by apply first_segment_no_dot in Hget.
Qed.

Lemma extracted_names_lowercase_dotless_witness :
  extract_imports_from_source LineParser.parse
    (LineParser.text ["import Requests.sessions"]) = Some {[ "requests" ]}
  /\ "requests" ∈ ({[ "requests" ]} : gset string)
  /\ Text.lower "requests" = "requests".
Proof.
  assert (extract_imports_from_source LineParser.parse
            (LineParser.text ["import Requests.sessions"]) = Some {[ "requests" ]})
    as Hfound by (vm_compute; reflexivity).
  assert ("requests" ∈ ({[ "requests" ]} : gset string)) as Hin
    by (by apply elem_of_singleton).
  split_and!; [exact Hfound|exact Hin|].
  exact (proj1 (extracted_names_lowercase_dotless _ _ _ _ Hfound Hin)).
Defined.

(** X17.  Imports are found at any depth: a plain import that lies anywhere
    below a child of any block of the tree (a function, a class, a
    conditional) adds its name. *)
Theorem nested_imports_are_extracted
    (ast_parse : string -> Ast.parse_result) (source : string)
    (tree child : Ast.node) (children : list Ast.node)
    (names : list Ast.alias) (alias : Ast.alias) :
  ast_parse source = Ast.Parsed tree ->
  Ast.Other children ∈ Ast.walk tree ->
  child ∈ children ->
  Ast.Import names ∈ Ast.walk child ->
  alias ∈ names ->
  exists found,
    extract_imports_from_source ast_parse source = Some found
    /\ Text.lower (Text.first_segment (Ast.name alias)) ∈ found.
Proof.
  intros Htree Hblock Hchild Himport Halias. unfold extract_imports_from_source.
  rewrite Htree. eexists. split; [done|].
  apply elem_of_foldl_visit_node. right.
  exists (Ast.Import names). split.
  - apply (walk_trans _ _ _ Hblock). simpl. apply elem_of_cons. right.
    apply elem_of_flat_map. by exists child.
  - apply elem_of_visit_node. right; left. by exists names, alias.
Qed.

Lemma nested_imports_are_extracted_witness :
  let inner := Ast.Other [Ast.Import [Ast.Alias "Yaml.nodes" None]] in
  let tree := Ast.Other [Ast.Other [inner]] in
  let ast_parse := fun _ : string => Ast.Parsed tree in
  ast_parse "source" = Ast.Parsed tree
  /\ Ast.Other [inner] ∈ Ast.walk tree
  /\ inner ∈ [inner]
  /\ Ast.Import [Ast.Alias "Yaml.nodes" None] ∈ Ast.walk inner
  /\ Ast.Alias "Yaml.nodes" None ∈ [Ast.Alias "Yaml.nodes" None]
  /\ exists found,
       extract_imports_from_source ast_parse "source" = Some found
       /\ "yaml" ∈ found.
Proof.
  intros inner tree ast_parse.
  assert (Ast.Other [inner] ∈ Ast.walk tree) as Hblock
    by (simpl; apply list_elem_of_further, list_elem_of_here).
  assert (inner ∈ [inner]) as Hchild by apply list_elem_of_here.
  assert (Ast.Import [Ast.Alias "Yaml.nodes" None] ∈ Ast.walk inner) as Himport
    by (simpl; apply list_elem_of_further, list_elem_of_here).
  assert (Ast.Alias "Yaml.nodes" None ∈ [Ast.Alias "Yaml.nodes" None]) as Halias
    by apply list_elem_of_here.
  split_and!; [reflexivity|exact Hblock|exact Hchild|exact Himport|exact Halias|].
  exact (nested_imports_are_extracted ast_parse "source" tree inner [inner]
           [Ast.Alias "Yaml.nodes" None] (Ast.Alias "Yaml.nodes" None)
           eq_refl Hblock Hchild Himport Halias).
Defined.

(** ** Local module detector *)

Section LocalModuleFacts.







End LocalModuleFacts.




(** ** Manifest reader *)

Lemma strings_sublist (items : list Toml.value) :
  (Toml.Str <$> Toml.strings items) `sublist_of` items.
Proof.
  induction items as [|[s|truth|sub|fields] items IH]; csimpl;
    [done|by constructor|by constructor|by constructor|by constructor].
Qed.

(** X20.  A manifest whose project table has a [dependencies] array is
    read as the strings of the array, in their order and with the other
    entries left out, together with the set of their normalized names. *)
Theorem load_declared_dependencies_array
    (tomllib_loads : string -> option (list (string * Toml.value)))
    (text : string) (data project : list (string * Toml.value))
    (items : list Toml.value) :
  tomllib_loads text = Some data ->
  Toml.get data "project" = Some (Toml.Table project) ->
  Toml.get project "dependencies" = Some (Toml.Array items) ->
  exists raw,
    load_declared_dependencies tomllib_loads (Some text)
    = Some (list_to_set (SyncSpec.declared_name <$> raw), raw)
    /\ (Toml.Str <$> raw) `sublist_of` items
    /\ forall s, Toml.Str s ∈ items -> s ∈ raw.
Proof.
  intros Hloads Hproject Hdeps. exists (Toml.strings items).
  split_and!; [|apply strings_sublist|].
  - unfold load_declared_dependencies. simpl. rewrite Hloads. simpl.
    rewrite Hproject, Hdeps. simpl.
    destruct items as [|item items]; simpl; done.
  - intros s Hs. unfold Toml.strings. apply list_elem_of_omap.
    by exists (Toml.Str s).
Qed.

Lemma load_declared_dependencies_array_witness :
  let data :=
    [("project",
      Toml.Table [("name", Toml.Str "sample");
                  ("dependencies",
                   Toml.Array [Toml.Str "requests>=2.0"; Toml.Scalar true;
                               Toml.Str "unusedpkg"])])] in
  let tomllib_loads := fun _ : string => Some data in
  tomllib_loads "manifest" = Some data
  /\ exists raw,
       load_declared_dependencies tomllib_loads (Some "manifest")
       = Some (list_to_set (SyncSpec.declared_name <$> raw), raw)
       /\ (Toml.Str <$> raw)
            `sublist_of` [Toml.Str "requests>=2.0"; Toml.Scalar true;
                          Toml.Str "unusedpkg"]
       /\ forall s, Toml.Str s ∈ [Toml.Str "requests>=2.0"; Toml.Scalar true;
                                  Toml.Str "unusedpkg"] -> s ∈ raw.
Proof.
  intros data tomllib_loads. split; [reflexivity|].
  exact (load_declared_dependencies_array tomllib_loads "manifest" data _ _
           eq_refl eq_refl eq_refl).
Defined.

(** X21.  A manifest without a project table, or whose project table has
    no [dependencies] field or an empty or otherwise false one, declares
    nothing; without a manifest file, or when the project entry is not a
    table, the reader raises. *)
Theorem load_declared_dependencies_edges
    (tomllib_loads : string -> option (list (string * Toml.value)))
    (text : string) (data : list (string * Toml.value)) :
  tomllib_loads text = Some data ->
  load_declared_dependencies tomllib_loads None = None
  /\ (Toml.get data "project" = None ->
      load_declared_dependencies tomllib_loads (Some text) = Some (∅, []))
  /\ (forall project,
        Toml.get data "project" = Some (Toml.Table project) ->
        (Toml.get project "dependencies" = None
         \/ exists v, Toml.get project "dependencies" = Some v
                      /\ Toml.truthy v = false) ->
        load_declared_dependencies tomllib_loads (Some text) = Some (∅, []))
  /\ (forall v,
        Toml.get data "project" = Some v ->
        (forall project, v <> Toml.Table project) ->
        load_declared_dependencies tomllib_loads (Some text) = None).
Proof.
  intros Hloads. unfold load_declared_dependencies. simpl. rewrite Hloads. simpl.
  split_and!.
  - done.
  - by intros ->.
  - intros project -> [->|(v & -> & Hfalse)]; simpl; [done|]. by rewrite Hfalse.
  - intros v -> Hnot. destruct v as [s|truth|items|project]; simpl; try done.
    by destruct (Hnot project).
Qed.

Lemma load_declared_dependencies_edges_witness :
  let tomllib_loads := fun _ : string =>
    Some [("project", Toml.Table [("name", Toml.Str "sample")])] in
  tomllib_loads "manifest"
  = Some [("project", Toml.Table [("name", Toml.Str "sample")])]
  /\ load_declared_dependencies tomllib_loads (Some "manifest") = Some (∅, []).
Proof.
  intros tomllib_loads. split; [reflexivity|].
  refine (proj1 (proj2 (proj2 (load_declared_dependencies_edges tomllib_loads
                                 "manifest" _ eq_refl)))
                [("name", Toml.Str "sample")] eq_refl _).
  by left.
Defined.

(** ** Command line *)

Section MapValueFacts.

Lemma lstrip_rstrip_fixed t :
  Text.lstrip t = t -> Text.lstrip (Text.rstrip t) = Text.rstrip t.
Proof.
  intros Hlead. destruct t as [|c rest]; [done|].
  pose proof (lstrip_fixed_head c rest Hlead) as Hsp.
  destruct (rstrip_head c rest) as [->|[rest' ->]]; [done|].
  simpl. by rewrite Hsp.
Qed.

Lemma strip_idemp s : Text.strip (Text.strip s) = Text.strip s.
Proof.
  unfold Text.strip.
  by rewrite (lstrip_rstrip_fixed _ (lstrip_idemp s)), rstrip_idemp.
Qed.

Lemma lower_empty s : Text.lower s = EmptyString <-> s = EmptyString.
Proof. by destruct s. Qed.

Lemma truthy_false s : Text.truthy s = false <-> s = EmptyString.
Proof. by destruct s. Qed.

(** One step of the loop of [parse_map_values]. *)
Lemma parse_map_values_snoc entries entry :
  parse_map_values (entries ++ [entry])
  = match parse_map_values entries with
    | None => None
    | Some mapping =>
        match split_at_equals entry with
        | None => None
        | Some (module, dependency) =>
            if negb (Text.truthy (Text.lower (Text.strip module)))
               || negb (Text.truthy (Text.strip dependency))
            then None
            else Some (<[Text.lower (Text.strip module) := Text.strip dependency]>
                         mapping)
        end
    end.
Proof. unfold parse_map_values. by rewrite foldl_snoc. Qed.

(** Every entry of a parsed map comes from an argument of the right
    shape. *)
Lemma parse_map_values_entries entries mapping module dependency :
  parse_map_values entries = Some mapping ->
  mapping !! module = Some dependency ->
  exists entry before after,
    entry ∈ entries
    /\ split_at_equals entry = Some (before, after)
    /\ module = Text.lower (Text.strip before)
    /\ dependency = Text.strip after
    /\ module <> EmptyString /\ dependency <> EmptyString.
Proof.
  revert mapping. induction entries as [|entry entries IH] using rev_ind;
    intros mapping.
  { intros [= <-]. by rewrite lookup_empty. }
  rewrite parse_map_values_snoc.
  destruct (parse_map_values entries) as [previous|]; [|done].
  destruct (split_at_equals entry) as [[before after]|] eqn:Hsplit; [|done].
  destruct (Text.truthy (Text.lower (Text.strip before))) eqn:Hmod; [|done].
  destruct (Text.truthy (Text.strip after)) eqn:Hdep; [|done].
  simpl. intros [= <-].
  destruct (decide (Text.lower (Text.strip before) = module)) as [<-|Hne].
  - rewrite lookup_insert_eq. intros [= <-].
    exists entry, before, after. split_and!; try done.
    + apply elem_of_app. right. apply list_elem_of_here.
    + intros Heq. by rewrite Heq in Hmod.
    + intros Heq. by rewrite Heq in Hdep.
  - rewrite lookup_insert_ne by done. intros Hm.
    destruct (IH previous eq_refl Hm) as (e & b & a & He & ?).
    exists e, b, a. split; [|done]. apply elem_of_app. by left.
Qed.

End MapValueFacts.

(** X22.  In a map parsed from the command line every module is non-empty
    and in lower case, and every distribution name is non-empty and has no
    white space around it. *)
Theorem parse_map_values_shape
    (entries : list string) (mapping : gmap string string)
    (module dependency : string) :
  parse_map_values entries = Some mapping ->
  mapping !! module = Some dependency ->
  module <> EmptyString /\ Text.lower module = module
  /\ dependency <> EmptyString /\ Text.strip dependency = dependency.
Proof.
  intros Hparse Hentry.
  destruct (parse_map_values_entries _ _ _ _ Hparse Hentry)
    as (entry & before & after & _ & _ & -> & -> & Hm & Hd).
  split_and!; [done|apply lower_idemp|done|apply strip_idemp].
Qed.

Lemma parse_map_values_shape_witness :
  parse_map_values [" Yaml = PyYAML "] = Some {[ "yaml" := "PyYAML" ]}
  /\ ({[ "yaml" := "PyYAML" ]} : gmap string string) !! "yaml" = Some "PyYAML"
  /\ Text.strip "PyYAML" = "PyYAML".
Proof.
  assert (parse_map_values [" Yaml = PyYAML "] = Some {[ "yaml" := "PyYAML" ]})
    as Hparse by (vm_compute; reflexivity).
  assert (({[ "yaml" := "PyYAML" ]} : gmap string string) !! "yaml" = Some "PyYAML")
    as Hentry by apply lookup_singleton_eq.
  split_and!; [exact Hparse|exact Hentry|].
  exact (proj2 (proj2 (proj2 (parse_map_values_shape _ _ _ _ Hparse Hentry)))).
Defined.

(** X23.  The map arguments are rejected exactly when one of them has no
    equals sign, or nothing but white space before or after its first
    equals sign. *)
Theorem parse_map_values_rejects (entries : list string) :
  parse_map_values entries = None
  <-> exists entry,
        entry ∈ entries
        /\ (split_at_equals entry = None
            \/ exists before after,
                 split_at_equals entry = Some (before, after)
                 /\ (Text.strip before = EmptyString
                     \/ Text.strip after = EmptyString)).
Proof.
  induction entries as [|entry entries IH] using rev_ind.
  { split; [done|]. by intros (e & ?%elem_of_nil & _). }
  rewrite parse_map_values_snoc. split.
  - destruct (parse_map_values entries) as [previous|].
    + intros Hnone. exists entry. split; [apply elem_of_app; right; apply list_elem_of_here|].
      destruct (split_at_equals entry) as [[before after]|]; [|by left].
      right. exists before, after. split; [done|].
      destruct (Text.truthy (Text.lower (Text.strip before))) eqn:Hmod.
      * destruct (Text.truthy (Text.strip after)) eqn:Hdep; [done|].
        right. by apply truthy_false.
      * left. by apply lower_empty, truthy_false.
    + intros _. destruct (proj1 IH eq_refl) as (e & He & Hbad).
      exists e. split; [apply elem_of_app; by left|done].
  - intros (e & [He| ->%list_elem_of_singleton]%elem_of_app & Hbad).
    + rewrite (proj2 IH); [done|]. by exists e.
    + destruct (parse_map_values entries) as [previous|]; [|done].
      destruct Hbad as [->|(before & after & -> & [Hb|Ha])]; [done| |].
      * by rewrite Hb.
      * rewrite Ha. simpl. by rewrite orb_true_r.
Qed.

(** X24.  An override given on the command line is never passed over: for
    an import that is not excluded, the inferred name is the normalized
    distribution name of the argument, whatever the index holds. *)
Theorem cli_override_always_applies
    (entries : list string) (mapping : gmap string string)
    (module dependency : string)
    (distribution_map : gmap string (list string))
    (local_modules stdlib_modules : gset string) :
  parse_map_values entries = Some mapping ->
  mapping !! module = Some dependency ->
  module ∉ stdlib_modules -> module ∉ local_modules ->
  infer_dependencies {[ module ]} distribution_map local_modules stdlib_modules
    (Some mapping)
  = {[ normalize_dist_name dependency ]}.
Proof.
  intros Hparse Hentry Hstd Hloc.
  destruct (parse_map_values_entries _ _ _ _ Hparse Hentry)
    as (_ & _ & _ & _ & _ & _ & _ & _ & Hd).
  rewrite infer_dependencies_singleton, contribution_singleton by done.
  simpl. rewrite Hentry. by destruct dependency.
Qed.

Lemma cli_override_always_applies_witness :
  parse_map_values ["yaml=PyYAML"] = Some {[ "yaml" := "PyYAML" ]}
  /\ ({[ "yaml" := "PyYAML" ]} : gmap string string) !! "yaml" = Some "PyYAML"
  /\ ("yaml" ∉ (∅ : gset string))
  /\ infer_dependencies {[ "yaml" ]} {[ "yaml" := ["other"] ]} ∅ ∅
       (Some {[ "yaml" := "PyYAML" ]})
     = {[ normalize_dist_name "PyYAML" ]}.
Proof.
  assert (parse_map_values ["yaml=PyYAML"] = Some {[ "yaml" := "PyYAML" ]})
    as Hparse by (vm_compute; reflexivity).
  assert (({[ "yaml" := "PyYAML" ]} : gmap string string) !! "yaml" = Some "PyYAML")
    as Hentry by apply lookup_singleton_eq.
  assert ("yaml" ∉ (∅ : gset string)) as Hnot by apply not_elem_of_empty.
  split_and!; [exact Hparse|exact Hentry|exact Hnot|].
  exact (cli_override_always_applies ["yaml=PyYAML"] _ "yaml" "PyYAML"
           {[ "yaml" := ["other"] ]} ∅ ∅ Hparse Hentry Hnot Hnot).
Defined.

(** ** Sync: the manifest file *)

Section SyncFileFacts.

Context {document : Type}.
Context (tomlkit_parse : string -> option document).
Context (tomlkit_dumps : document -> string).
Context (has_project : document -> bool).
Context (add_project : document -> document).
Context (project_dependencies : document -> option (list Toml.value)).
Context (set_project_dependencies : document -> list string -> document).

Local Abbreviation sync :=
  (sync_project_dependencies tomlkit_parse tomlkit_dumps has_project add_project
     project_dependencies set_project_dependencies).

(** X25.  Without the write flag the sync is a preview: the manifest file
    is left as it was in every case, and a returned result never reports a
    write. *)
Theorem dry_run_leaves_manifest
    (pyproject : option string) (inferred_dependencies : gset string)
    (fault : write_fault) :
  fst (sync pyproject inferred_dependencies false fault) = pyproject
  /\ forall result,
       snd (sync pyproject inferred_dependencies false fault) = Some result ->
       wrote result = false.
Proof.
  unfold sync_project_dependencies.
  destruct pyproject as [source_text|]; [|done].
  destruct (tomlkit_parse source_text) as [parsed|]; [|done].
  destruct (project_dependencies _) as [items|]; [|done].
  rewrite andb_false_r. simpl. split; [done|]. by intros result [= <-].
Qed.

(** X26.  A returned result is consistent: [after] is the synced list of
    [before], [changed] tells whether the two lists differ, a reported
    write happened with the write flag on a changed list and left the
    serialized document in the file, and without a reported write the file
    is as it was. *)
Theorem sync_result_consistent
    (pyproject file : option string) (inferred_dependencies : gset string)
    (write : bool) (fault : write_fault) (result : SyncResult) :
  sync pyproject inferred_dependencies write fault = (file, Some result) ->
  after result = compute_synced_dependencies (before result) inferred_dependencies
  /\ (changed result = true <-> before result <> after result)
  /\ (wrote result = true ->
      changed result = true /\ write = true /\ fault = NoFault
      /\ exists updated, file = Some (tomlkit_dumps updated))
  /\ (wrote result = false -> file = pyproject).
Proof.
  unfold sync_project_dependencies.
  destruct pyproject as [source_text|]; [|done].
  destruct (tomlkit_parse source_text) as [parsed|]; [|done].
  destruct (project_dependencies _) as [items|]; [|done].
  set (current := Toml.strings items).
  set (synced := compute_synced_dependencies current inferred_dependencies).
  assert (bool_decide (current <> synced) = true <-> current <> synced) as Hflag
    by apply bool_decide_eq_true.
  destruct (bool_decide (current <> synced)) eqn:Hchanged; simpl.
  - destruct write; simpl.
    + destruct fault; simpl; [|done|done]. intros [= <- <-]. simpl.
      split_and!; [done|done| |done]. intros _. split_and!; try done. eauto.
    + intros [= <- <-]. simpl. by split_and!.
  - intros [= <- <-]. simpl. by split_and!.
Qed.

(** X27.  Sync is idempotent on the file.  When the editor reads the
    written text back with the synced list as its dependencies, and the
    inferred names are normalized without leading white space, a further
    sync of the written manifest reports no change and leaves the file
    alone, with the write flag set or not. *)
Theorem second_sync_changes_nothing
    (source_text : string) (parsed reparsed : document)
    (items items' : list Toml.value)
    (inferred_dependencies : gset string) (write : bool) (fault : write_fault) :
  tomlkit_parse source_text = Some parsed ->
  project_dependencies (if has_project parsed then parsed else add_project parsed)
  = Some items ->
  let synced := compute_synced_dependencies (Toml.strings items) inferred_dependencies in
  let new_text :=
    tomlkit_dumps
      (set_project_dependencies
         (if has_project parsed then parsed else add_project parsed) synced) in
  tomlkit_parse new_text = Some reparsed ->
  project_dependencies (if has_project reparsed then reparsed else add_project reparsed)
  = Some items' ->
  Toml.strings items' = synced ->
  (forall n, n ∈ inferred_dependencies ->
             normalize_dist_name n = n /\ Text.lstrip n = n) ->
  sync (Some new_text) inferred_dependencies write fault
  = (Some new_text, Some (mkSyncResult false false synced synced)).
Proof.
  intros Hparse Hdeps synced new_text Hreparse Hdeps' Hsame Hnames.
  unfold sync_project_dependencies. rewrite Hreparse, Hdeps', Hsame.
  assert (compute_synced_dependencies synced inferred_dependencies = synced) as ->.
  { apply compute_synced_fixed_point. by apply normalized_names_keys. }
  rewrite bool_decide_false by (by intros []). done.
Qed.

End SyncFileFacts.

Lemma sync_result_consistent_witness :
  let prior := LineParser.text ["requests>=2.0"; "unusedpkg"] in
  let inferred : gset string := {[ "requests"; "click" ]} in
  let result := mkSyncResult true true ["requests>=2.0"; "unusedpkg"]
                             ["click"; "requests>=2.0"] in
  LineEditor.sync (Some prior) inferred true NoFault
  = (Some (LineParser.text ["click"; "requests>=2.0"]), Some result)
  /\ after result = compute_synced_dependencies (before result) inferred.
Proof.
  intros prior inferred result.
  assert (LineEditor.sync (Some prior) inferred true NoFault
          = (Some (LineParser.text ["click"; "requests>=2.0"]), Some result))
    as Hsync by (vm_compute; reflexivity).
  split; [exact Hsync|].
  exact (proj1 (sync_result_consistent
                  LineEditor.parse LineEditor.dumps (fun _ => true) (fun doc => doc)
                  (fun doc => Some (Toml.Str <$> doc)) (fun _ deps => deps)
                  _ _ _ _ _ _ Hsync)).
Defined.

Lemma second_sync_changes_nothing_witness :
  let prior := LineParser.text ["requests>=2.0"; "unusedpkg"] in
  let written := LineParser.text ["click"; "requests>=2.0"] in
  let inferred : gset string := {[ "requests"; "click" ]} in
  (forall n, n ∈ inferred -> normalize_dist_name n = n /\ Text.lstrip n = n)
  /\ fst (LineEditor.sync (Some prior) inferred true NoFault) = Some written
  /\ LineEditor.sync (Some written) inferred true NoFault
     = (Some written,
        Some (mkSyncResult false false ["click"; "requests>=2.0"]
                           ["click"; "requests>=2.0"])).
Proof.
  intros prior written inferred.
  assert (forall n, n ∈ inferred -> normalize_dist_name n = n /\ Text.lstrip n = n)
    as Hnames.
  { intros n [->%elem_of_singleton| ->%elem_of_singleton]%elem_of_union;
      split; reflexivity. }
  split_and!; [exact Hnames|by vm_compute|].
  exact (second_sync_changes_nothing
           LineEditor.parse LineEditor.dumps (fun _ => true) (fun doc => doc)
           (fun doc => Some (Toml.Str <$> doc)) (fun _ deps => deps)
           prior ["requests>=2.0"; "unusedpkg"] ["click"; "requests>=2.0"]
           (Toml.Str <$> ["requests>=2.0"; "unusedpkg"])
           (Toml.Str <$> ["click"; "requests>=2.0"])
           inferred true NoFault
           eq_refl eq_refl eq_refl eq_refl eq_refl Hnames).
Defined.

(** ** Analysis and the check command *)

Section AnalysisFacts.

Context (ast_parse : string -> Ast.parse_result).
Context (tomllib_loads : string -> option (list (string * Toml.value))).
Context (packages_distributions : list (string * list string)).
Context (stdlib_module_names : option (list string)).

Local Abbreviation analyze :=
  (analyze_project ast_parse tomllib_loads packages_distributions
     stdlib_module_names).

(** The fields of a returned analysis. *)
Lemma analyze_project_fields project_path pyproject excluded_dirs explicit_map
    distribution_map stdlib_modules analysis :
  analyze project_path pyproject excluded_dirs explicit_map distribution_map
    stdlib_modules = Some analysis ->
  exists excluded index stdlib raw,
    (excluded = default DEFAULT_EXCLUDED_DIRS excluded_dirs
     \/ (excluded_dirs = Some ∅ /\ excluded = DEFAULT_EXCLUDED_DIRS))
    /\ collect_imports ast_parse project_path excluded
       = Some (Analysis.imports analysis, Analysis.scanned_files analysis)
    /\ Analysis.scanned_files analysis
       = length (iter_python_files project_path excluded)
    /\ discover_local_modules project_path = Some (Analysis.local_modules analysis)
    /\ Analysis.inferred_dependencies analysis
       = infer_dependencies (Analysis.imports analysis) index
           (Analysis.local_modules analysis) stdlib explicit_map
    /\ load_declared_dependencies tomllib_loads pyproject
       = Some (Analysis.declared_dependencies analysis, raw)
    /\ Analysis.missing_dependencies analysis
       = Analysis.inferred_dependencies analysis
         ∖ Analysis.declared_dependencies analysis
    /\ Analysis.unused_dependencies analysis
       = Analysis.declared_dependencies analysis
         ∖ Analysis.inferred_dependencies analysis
    /\ ((distribution_map = Some index /\ index <> ∅)
        \/ ((distribution_map = None \/ distribution_map = Some ∅)
            /\ index = build_distribution_map packages_distributions))
    /\ ((stdlib_modules = Some stdlib /\ stdlib <> ∅)
        \/ ((stdlib_modules = None \/ stdlib_modules = Some ∅)
            /\ stdlib = get_stdlib_modules stdlib_module_names)).
Proof.
  unfold analyze_project. destruct pyproject as [text|]; [|done].
  set (excluded := match excluded_dirs with Some _ => _ | None => _ end).
  set (index := match distribution_map with Some _ => _ | None => _ end).
  set (stdlib := match stdlib_modules with Some _ => _ | None => _ end).
  destruct (collect_imports ast_parse project_path excluded)
    as [[imports scanned]|] eqn:Hcollect; [|done].
  destruct (discover_local_modules project_path) as [local_modules|]; [|done].
  destruct (load_declared_dependencies tomllib_loads (Some text))
    as [[declared raw]|]; [|done].
  intros [= <-]. simpl. exists excluded, index, stdlib, raw. split_and!; try done.
  - unfold excluded. destruct excluded_dirs as [given|]; [|by left].
    destruct (decide (given = ∅)) as [->|]; [right|left]; done.
  - by apply collect_imports_Some in Hcollect as (-> & _).
  - unfold index. destruct distribution_map as [given|]; [|right; split; [by left|done]].
    destruct (decide (given = ∅)) as [->|]; [right; split; [by right|done]|by left].
  - unfold stdlib. destruct stdlib_modules as [given|]; [|right; split; [by left|done]].
    destruct (decide (given = ∅)) as [->|]; [right; split; [by right|done]|by left].
Qed.

(** X28.  The check command exits with 0 exactly when the inferred and the
    declared set are the same set, and with 1 otherwise. *)
Theorem check_passes_iff_sets_agree
    project_path pyproject excluded_dirs explicit_map distribution_map
    stdlib_modules analysis :
  analyze project_path pyproject excluded_dirs explicit_map distribution_map
    stdlib_modules = Some analysis ->
  (check_exit_code analysis = 0%nat
   <-> Analysis.inferred_dependencies analysis
       = Analysis.declared_dependencies analysis)
  /\ (check_exit_code analysis = 1%nat
      <-> Analysis.inferred_dependencies analysis
          <> Analysis.declared_dependencies analysis).
Proof.
  intros (_ & _ & _ & _ & _ & _ & _ & _ & _ & _ & Hmissing & Hunused & _)
    %analyze_project_fields.
  set (inferred := Analysis.inferred_dependencies analysis) in *.
  set (declared := Analysis.declared_dependencies analysis) in *.
  assert (check_exit_code analysis = 0%nat <-> inferred = declared) as Hzero.
  { unfold check_exit_code. rewrite Hmissing, Hunused. split.
    - destruct (bool_decide (inferred ∖ declared = ∅)) eqn:Hm; [|done].
      destruct (bool_decide (declared ∖ inferred = ∅)) eqn:Hu; [|done].
      intros _. apply bool_decide_eq_true in Hm, Hu.
      apply set_eq. intros x. split; intros Hx.
      + destruct (decide (x ∈ declared)) as [|Hnot]; [done|].
        assert (x ∈ inferred ∖ declared) as Hin by (by apply elem_of_difference).
        rewrite Hm in Hin. by apply not_elem_of_empty in Hin.
      + destruct (decide (x ∈ inferred)) as [|Hnot]; [done|].
        assert (x ∈ declared ∖ inferred) as Hin by (by apply elem_of_difference).
        rewrite Hu in Hin. by apply not_elem_of_empty in Hin.
    - intros Heq.
      assert (inferred ∖ declared = ∅) as Hm.
      { apply set_eq. intros x. rewrite elem_of_difference, Heq.
        split; [by intros [? ?]|by intros ?%not_elem_of_empty]. }
      assert (declared ∖ inferred = ∅) as Hu.
      { apply set_eq. intros x. rewrite elem_of_difference, Heq.
        split; [by intros [? ?]|by intros ?%not_elem_of_empty]. }
      by rewrite !bool_decide_true. }
  split; [exact Hzero|].
  assert (check_exit_code analysis = 0%nat \/ check_exit_code analysis = 1%nat)
    as [Hcode|Hcode].
  { unfold check_exit_code. destruct (_ || _); [by right|by left]. }
  - split; [by rewrite Hcode|]. intros Hne. destruct Hne. by apply Hzero.
  - split; [|done]. intros _ Heq%Hzero. by rewrite Hcode in Heq.
Qed.

(** X29.  In a returned analysis the missing names are inferred and not
    declared, the unused names are declared and not inferred, no name is
    both missing and unused, and all names of the four dependency sets are
    normalized.  No local module of the project is resolved: a name is
    inferred exactly when it is the normalized resolution of an import that
    is neither a local module nor a standard-library module, where the
    resolution is the override of the module when it has a non-empty one,
    else the first candidate of the index for the module, else the module
    name; the index and the standard-library set are the ones passed in
    when these are not empty, and the ones of the running interpreter
    otherwise. *)
Theorem analysis_invariants
    project_path pyproject excluded_dirs explicit_map distribution_map
    stdlib_modules analysis :
  analyze project_path pyproject excluded_dirs explicit_map distribution_map
    stdlib_modules = Some analysis ->
  (forall x, x ∈ Analysis.missing_dependencies analysis
             <-> x ∈ Analysis.inferred_dependencies analysis
                 /\ x ∉ Analysis.declared_dependencies analysis)
  /\ (forall x, x ∈ Analysis.unused_dependencies analysis
                <-> x ∈ Analysis.declared_dependencies analysis
                    /\ x ∉ Analysis.inferred_dependencies analysis)
  /\ Analysis.missing_dependencies analysis ## Analysis.unused_dependencies analysis
  /\ (forall x, x ∈ Analysis.inferred_dependencies analysis
                \/ x ∈ Analysis.declared_dependencies analysis ->
                normalize_dist_name x = x)
  /\ exists index stdlib,
       ((distribution_map = Some index /\ index <> ∅)
        \/ ((distribution_map = None \/ distribution_map = Some ∅)
            /\ index = build_distribution_map packages_distributions))
       /\ ((stdlib_modules = Some stdlib /\ stdlib <> ∅)
           \/ ((stdlib_modules = None \/ stdlib_modules = Some ∅)
               /\ stdlib = get_stdlib_modules stdlib_module_names))
       /\ forall x,
            x ∈ Analysis.inferred_dependencies analysis
            <-> exists module resolved,
                  module ∈ Analysis.imports analysis
                  /\ (module ∉ Analysis.local_modules analysis)
                  /\ (module ∉ stdlib)
                  /\ x = normalize_dist_name resolved
                  /\ ((exists mapped_dep,
                         default ∅ explicit_map !! module = Some mapped_dep
                         /\ mapped_dep <> EmptyString /\ resolved = mapped_dep)
                      \/ ((default ∅ explicit_map !! module = None
                           \/ default ∅ explicit_map !! module = Some EmptyString)
                          /\ ((exists rest, index !! module = Some (resolved :: rest))
                              \/ ((index !! module = None \/ index !! module = Some [])
                                  /\ resolved = module)))).
Proof.
  intros (excluded & index & stdlib & raw & _ & _ & _ & _ & Hinferred & Hload
          & Hmissing & Hunused & Hindex & Hstdlib)%analyze_project_fields.
  rewrite Hmissing, Hunused. split_and!.
  - intros x. apply elem_of_difference.
  - intros x. apply elem_of_difference.
  - intros x [_ Hnot]%elem_of_difference [Hin _]%elem_of_difference. done.
  - intros x [Hx|Hx].
    + rewrite Hinferred in Hx.
      apply elem_of_infer_dependencies in Hx as (m & _ & Hx).
      by eapply contribution_normalized.
    + rewrite (load_declared_dependencies_sets _ _ _ _ Hload) in Hx.
      apply elem_of_list_to_set, list_elem_of_fmap in Hx as (dep & -> & _).
      apply normalize_idemp.
  - exists index, stdlib. split_and!; [done|done|].
    intros x. rewrite Hinferred, elem_of_infer_dependencies. split.
    + intros (m & Hm & Hx).
      destruct (decide (m ∈ stdlib)) as [Hstd|Hstd].
      { rewrite contribution_excluded in Hx by (by left).
        by apply not_elem_of_empty in Hx. }
      destruct (decide (m ∈ Analysis.local_modules analysis)) as [Hloc|Hloc].
      { rewrite contribution_excluded in Hx by (by right).
        by apply not_elem_of_empty in Hx. }
      rewrite contribution_singleton in Hx by done.
      apply elem_of_singleton in Hx. eexists m, _.
      split_and!; [done|done|done|exact Hx|].
      destruct (default ∅ explicit_map !! m) as [[|c mapped]|] eqn:Hmap; simpl.
      * right. split; [by right|].
        destruct (index !! m) as [[|first rest]|];
          [right; split; [by right|done]|left; by exists rest
          |right; split; [by left|done]].
      * left. by eexists.
      * right. split; [by left|].
        destruct (index !! m) as [[|first rest]|];
          [right; split; [by right|done]|left; by exists rest
          |right; split; [by left|done]].
    + intros (m & resolved & Hm & Hloc & Hstd & -> & Hres).
      exists m. split; [done|]. rewrite contribution_singleton by done.
      apply elem_of_singleton. f_equal.
      destruct Hres as [(mapped & -> & Hne & ->)|[Hmap Hres]].
      * by destruct mapped.
      * assert (resolved = match index !! m with
                           | Some (first :: _) => first
                           | _ => m
                           end) as ->.
        { destruct Hres as [(rest & ->)|[[-> | ->] ->]]; done. }
        by destruct Hmap as [-> | ->].
Qed.

(** X30.  The exclusion set that the command line passes on always holds
    the default directories and the ones given by the user, and it is used
    as it is: the files scanned are the Python files of the project that
    lie under no default-excluded and no user-excluded directory. *)
Theorem cli_exclusions_apply
    project_path pyproject (exclude_dir : list string) explicit_map
    distribution_map stdlib_modules analysis :
  analyze project_path pyproject (Some (cli_excluded_dirs exclude_dir))
    explicit_map distribution_map stdlib_modules = Some analysis ->
  Analysis.scanned_files analysis
  = length (iter_python_files project_path (cli_excluded_dirs exclude_dir))
  /\ forall p,
       p ∈ iter_python_files project_path (cli_excluded_dirs exclude_dir) ->
       exists dirs name,
         Fs.parts p = dirs ++ [name]
         /\ Forall (fun d => (d ∉ DEFAULT_EXCLUDED_DIRS) /\ (d ∉ exclude_dir)) dirs.
Proof.
  intros (excluded & _ & _ & _ & Hexcluded & _ & Hscanned & _)
    %analyze_project_fields.
  assert (excluded = cli_excluded_dirs exclude_dir) as ->.
  { destruct Hexcluded as [->|[[= Hempty] _]]; [done|].
    assert (".git" ∈ cli_excluded_dirs exclude_dir) as Hin.
    { apply elem_of_union. left. unfold DEFAULT_EXCLUDED_DIRS.
      repeat (apply elem_of_union; left). by apply elem_of_singleton. }
    rewrite Hempty in Hin. by apply not_elem_of_empty in Hin. }
  split; [done|].
  intros p (dirs & name & text & -> & _ & _ & Hdirs)
    %(elem_of_walk_python_files _ project_path []).
  exists dirs, name. split; [done|].
  eapply Forall_impl; [exact Hdirs|]. intros d Hd. split.
  - intros Hin. apply Hd, elem_of_union. by left.
  - intros Hin. apply Hd, elem_of_union. right. by apply elem_of_list_to_set.
Qed.

End AnalysisFacts.

Lemma check_passes_iff_sets_agree_witness :
  TestProject.analyze TestProject.tree (Some "manifest") None None
    (Some TestProject.distribution_map) (Some {[ "os" ]})
  = Some TestProject.analysis
  /\ (check_exit_code TestProject.analysis = 0%nat
      <-> Analysis.inferred_dependencies TestProject.analysis
          = Analysis.declared_dependencies TestProject.analysis)
  /\ (check_exit_code TestProject.analysis = 1%nat
      <-> Analysis.inferred_dependencies TestProject.analysis
          <> Analysis.declared_dependencies TestProject.analysis).
Proof.
  assert (TestProject.analyze TestProject.tree (Some "manifest") None None
            (Some TestProject.distribution_map) (Some {[ "os" ]})
          = Some TestProject.analysis) as Hrun by (vm_compute; reflexivity).
  split; [exact Hrun|].
  exact (check_passes_iff_sets_agree _ _ _ _ _ _ _ _ _ _ _ Hrun).
Defined.

Lemma analysis_invariants_witness :
  TestProject.analyze TestProject.tree (Some "manifest") None None
    (Some TestProject.distribution_map) (Some {[ "os" ]})
  = Some TestProject.analysis
  /\ Analysis.missing_dependencies TestProject.analysis
     ## Analysis.unused_dependencies TestProject.analysis.
Proof.
  assert (TestProject.analyze TestProject.tree (Some "manifest") None None
            (Some TestProject.distribution_map) (Some {[ "os" ]})
          = Some TestProject.analysis) as Hrun by (vm_compute; reflexivity).
  split; [exact Hrun|].
  exact (proj1 (proj2 (proj2 (analysis_invariants _ _ _ _ _ _ _ _ _ _ _ Hrun)))).
Defined.

Lemma cli_exclusions_apply_witness :
  TestProject.analyze TestProject.tree (Some "manifest")
    (Some (cli_excluded_dirs ["tmp"])) None
    (Some TestProject.distribution_map) (Some {[ "os" ]})
  = Some TestProject.analysis
  /\ Analysis.scanned_files TestProject.analysis
     = length (iter_python_files TestProject.tree (cli_excluded_dirs ["tmp"])).
Proof.
  assert (TestProject.analyze TestProject.tree (Some "manifest")
            (Some (cli_excluded_dirs ["tmp"])) None
            (Some TestProject.distribution_map) (Some {[ "os" ]})
          = Some TestProject.analysis) as Hrun by (vm_compute; reflexivity).
  split; [exact Hrun|].
  exact (proj1 (cli_exclusions_apply _ _ _ _ _ _ _ _ _ _ _ Hrun)).
Defined.
